(** * ParkingLot-OOPS: a shallow embedding of [LLD.cpp]

    The C++ program keeps a multi-floor parking lot in memory.  Three
    classes carry the state: [ParkingSpot], [Floor] (a vector of spots)
    and [ParkingLot] (a vector of floors and two hash maps keyed by the
    licence plate).  Each class becomes a module below, each method a
    function of that module under the method's own name.

    - [int] is [Z]; the one explicit narrowing cast of the source,
      [(int)spots.size()], is written out as [to_int].
    - [size_t] is [Z] reduced modulo [2^64] ([to_size_t]).
    - [vector<T>] is [list T]; [v[i]] outside the vector is undefined
      behaviour and is reported as [Undefined].
    - [unordered_map<string, T>] is [gmap string T].
    - text written to [cout] is a list of [Msg], one per line.

    Left out: the terminal loop of [main], the [Vehicle] objects' memory
    (the lot keeps the records by value), and the mutex; a method is run
    by one thread from entry to return. *)

From stdpp Require Import base option list gmap strings fin_maps.
From Stdlib Require Import ZArith Lia.

Local Open Scope Z_scope.

(** ** Outcome of running a piece of the program *)

Inductive exec (A : Type) : Type :=
| Done (a : A)      (* ran to completion *)
| Undefined         (* indexed a vector outside its bounds *)
| OutOfFuel.        (* the loop budget of the model ran out *)
Arguments Done {A} a.
Arguments Undefined {A}.
Arguments OutOfFuel {A}.

(** Sequencing for [exec]: the first failure ends the run. *)
Definition exec_bind {A B} (m : exec A) (k : A -> exec B) : exec B :=
  match m with
  | Done a => k a
  | Undefined => Undefined
  | OutOfFuel => OutOfFuel
  end.

Declare Scope exec_scope.
Delimit Scope exec_scope with exec.
Notation "'let*' x := m 'in' k" := (exec_bind m (fun x => k))
  (at level 10, x name, m at level 100, k at level 200) : exec_scope.
Local Open Scope exec_scope.

(** ** Machine integers *)

Definition SIZE_WIDTH : Z := 64.
Definition INT_MAX : Z := 2147483647.

(** Arithmetic on [size_t] is modulo [2^64]. *)
Definition to_size_t (z : Z) : Z := z mod 2 ^ SIZE_WIDTH.

(** [(int)x]: keep the low 32 bits, read as two's complement. *)
Definition to_int (z : Z) : Z := (z + 2 ^ 31) mod 2 ^ 32 - 2 ^ 31.

Definition int_range (z : Z) : Prop := - 2 ^ 31 <= z <= INT_MAX.

(** [v.size()] *)
Definition size {A} (v : list A) : Z := Z.of_nat (length v).

(** [v[i]] for an index already converted to [size_t]. *)
Definition at_index {A} (v : list A) (i : Z) : exec A :=
  if (0 <=? i) && (i <? size v)
  then match v !! Z.to_nat i with
       | Some x => Done x
       | None => Undefined
       end
  else Undefined.

(** ** Vehicles *)

Inductive VehicleType : Type := Bike | Car | Truck.

Record Vehicle : Type := mkVehicle {
  licensePlate : string;
  type : VehicleType
}.

Definition getRequiredSpots (v : Vehicle) : Z :=
  match type v with
  | Truck => 2
  | _ => 1
  end.

(** ** class ParkingSpot *)

Module ParkingSpot.

Record t : Type := mk {
  floorNumber : Z;
  spotNumber : Z;
  isOccupied : bool;
  parkedVehicle : string
}.

(** The constructor: a free spot with an empty plate. *)
Definition new (floorNumber spotNumber : Z) : t :=
  mk floorNumber spotNumber false EmptyString.

Definition assignVehicle (plate : string) (s : t) : bool * t :=
  if isOccupied s then (false, s)
  else (true, mk (floorNumber s) (spotNumber s) true plate).

Definition removeVehicle (s : t) : bool * t :=
  if negb (isOccupied s) then (false, s)
  else (true, mk (floorNumber s) (spotNumber s) false EmptyString).

End ParkingSpot.

(** ** class Floor *)

Module Floor.

Record t : Type := mk {
  floorNumber : Z;
  spots : list ParkingSpot.t
}.

(** The constructor pushes spots [0 .. numSpots-1]; nothing when
    [numSpots <= 0]. *)
Definition new (floorNumber numSpots : Z) : t :=
  mk floorNumber (ParkingSpot.new floorNumber <$> seqZ 0 numSpots).

(** [required == 1]: the range-for that returns the first free spot. *)
Fixpoint find_single (spots : list ParkingSpot.t) : list Z :=
  match spots with
  | [] => []
  | spot :: rest =>
      if negb (ParkingSpot.isOccupied spot)
      then [ParkingSpot.spotNumber spot]
      else find_single rest
  end.

(** [required == 2]:
    [for (size_t i = 0; i < spots.size() - 1; ++i)], entered at [i].
    The bound is computed in [size_t], so it wraps when the vector is
    empty.  [&&] evaluates [spots[i+1]] only when [spots[i]] is free. *)
Fixpoint find_pair (fuel : nat) (spots : list ParkingSpot.t) (i : Z)
  : exec (list Z) :=
  match fuel with
  | O => OutOfFuel
  | S fuel' =>
      if i <? to_size_t (size spots - 1) then
        let* a := at_index spots i in
        if negb (ParkingSpot.isOccupied a) then
          let* b := at_index spots (to_size_t (i + 1)) in
          if negb (ParkingSpot.isOccupied b)
          then Done [ParkingSpot.spotNumber a; ParkingSpot.spotNumber b]
          else find_pair fuel' spots (to_size_t (i + 1))
        else find_pair fuel' spots (to_size_t (i + 1))
      else Done []
  end.

Definition findAvailableSpots (vehicle : Vehicle) (f : t) : exec (list Z) :=
  let required := getRequiredSpots vehicle in
  if required =? 1 then Done (find_single (spots f))
  else if required =? 2 then find_pair (S (length (spots f))) (spots f) 0
  else Done [].

(** First loop of [parkVehicle]: every proposed index must be in range
    and free.  [||] stops at the first true disjunct, so [spots[idx]]
    is read only after both range tests failed. *)
Fixpoint verify (spots : list ParkingSpot.t) (spotNumbers : list Z)
  : exec bool :=
  match spotNumbers with
  | [] => Done true
  | idx :: rest =>
      if idx <? 0 then Done false
      else if idx >=? to_int (size spots) then Done false
      else
        let* s := at_index spots (to_size_t idx) in
        if ParkingSpot.isOccupied s then Done false
        else verify spots rest
  end.

(** Second loop of [parkVehicle]; the result of [assignVehicle] is
    dropped by the source. *)
Fixpoint assign_all (plate : string) (spots : list ParkingSpot.t)
    (spotNumbers : list Z) : exec (list ParkingSpot.t) :=
  match spotNumbers with
  | [] => Done spots
  | idx :: rest =>
      let* s := at_index spots (to_size_t idx) in
      assign_all plate
        (<[Z.to_nat (to_size_t idx) := (ParkingSpot.assignVehicle plate s).2]> spots)
        rest
  end.

Definition parkVehicle (vehicle : Vehicle) (spotNumbers : list Z) (f : t)
  : exec (bool * t) :=
  let* ok := verify (spots f) spotNumbers in
  if ok then
    let* spots' := assign_all (licensePlate vehicle) (spots f) spotNumbers in
    Done (true, mk (floorNumber f) spots')
  else Done (false, f).

(** The range-for of [removeVehicle], carrying the flag [removed]. *)
Fixpoint release (plate : string) (spots : list ParkingSpot.t)
    (removed : bool) : bool * list ParkingSpot.t :=
  match spots with
  | [] => (removed, [])
  | spot :: rest =>
      if ParkingSpot.isOccupied spot
         && bool_decide (ParkingSpot.parkedVehicle spot = plate)
      then
        let r := release plate rest true in
        (r.1, (ParkingSpot.removeVehicle spot).2 :: r.2)
      else
        let r := release plate rest removed in
        (r.1, spot :: r.2)
  end.

Definition removeVehicle (plate : string) (f : t) : bool * t :=
  let r := release plate (spots f) false in
  (r.1, mk (floorNumber f) r.2).

Fixpoint count_free (spots : list ParkingSpot.t) (count : Z) : Z :=
  match spots with
  | [] => count
  | spot :: rest =>
      count_free rest
        (if negb (ParkingSpot.isOccupied spot) then count + 1 else count)
  end.

Definition availableSpotsCount (f : t) : Z := count_free (spots f) 0.

End Floor.

(** ** Lines written to [cout] *)

Inductive Msg : Type :=
| AlreadyParked (plate : string)
    (* Vehicle <plate> is already parked. *)
| Parked (plate : string) (floor : Z) (spotNumbers : list Z)
    (* Parked <plate> on floor <floor> at spot(s): <n> <n> *)
| NoSuitableSpot (plate : string)
    (* Parking Lot Full or no suitable spot available for <plate> *)
| NotFound (plate : string)
    (* Vehicle <plate> not found. *)
| Removed (plate : string) (floor : Z)
    (* Vehicle <plate> removed from floor <floor> *)
| Located (plate : string) (floor : Z) (spotNumbers : list Z).
    (* Vehicle <plate> is parked on floor <floor> at spot(s): <n> <n> *)

(** ** class ParkingLot *)

Module ParkingLot.

Record t : Type := mk {
  vehicleLocations : gmap string (Z * list Z);
  vehiclesMap : gmap string Vehicle;
  floors : list Floor.t
}.

(** The constructor pushes floors [0 .. numFloors-1]. *)
Definition new (numFloors spotsPerFloor : Z) : t :=
  mk ∅ ∅ ((fun i => Floor.new i spotsPerFloor) <$> seqZ 0 numFloors).

(** What a method can touch: the lot it is called on and [cout]. *)
Record World : Type := mkWorld {
  lot : t;
  cout : list Msg
}.

(** A method body: reads and updates the world, may hit undefined
    behaviour.  The [lock_guard] every public method opens with has no
    counterpart here: one thread runs each method to its end. *)
Definition M (A : Type) : Type := World -> exec (A * World).

Definition pure {A} (a : A) : M A := fun w => Done (a, w).

Definition lot_bind {A B} (m : M A) (k : A -> M B) : M B := fun w =>
  match m w with
  | Done (a, w') => k a w'
  | Undefined => Undefined
  | OutOfFuel => OutOfFuel
  end.

Declare Scope lot_scope.
Delimit Scope lot_scope with lot.
Notation "'let*' x := m 'in' k" := (lot_bind m (fun x => k))
  (at level 10, x name, m at level 100, k at level 200) : lot_scope.
Notation "m ;; k" := (lot_bind m (fun _ => k))
  (at level 100, k at level 200, right associativity) : lot_scope.
Local Open Scope lot_scope.

(** [cout << ... << endl] *)
Definition print (m : Msg) : M unit := fun w =>
  Done (tt, mkWorld (lot w) (cout w ++ [m])).

(** [floors.size()], the extent of a range-for over [floors]. *)
Definition floor_count : M nat := fun w =>
  Done (length (floors (lot w)), w).

(** A read through the pointer [floors[i]]. *)
Definition read_floor {A} (i : Z) (method : Floor.t -> exec A) : M A :=
  fun w =>
    (let* f := at_index (floors (lot w)) i in
     let* a := method f in
     Done (a, w))%exec.

(** A call through the pointer [floors[i]] that may change the floor. *)
Definition call_floor {A} (i : Z) (method : Floor.t -> exec (A * Floor.t))
  : M A :=
  fun w =>
    (let* f := at_index (floors (lot w)) i in
     let* r := method f in
     Done (r.1,
           mkWorld (mk (vehicleLocations (lot w)) (vehiclesMap (lot w))
                       (<[Z.to_nat i := r.2]> (floors (lot w))))
                   (cout w)))%exec.

(** [vehicleLocations.find(plate)] *)
Definition find_location (plate : string) : M (option (Z * list Z)) :=
  fun w => Done (vehicleLocations (lot w) !! plate, w).

(** [vehicleLocations[plate] = loc] *)
Definition set_location (plate : string) (loc : Z * list Z) : M unit :=
  fun w =>
    Done (tt, mkWorld (mk (<[plate := loc]> (vehicleLocations (lot w)))
                          (vehiclesMap (lot w)) (floors (lot w)))
                      (cout w)).

(** [vehicleLocations.erase(it)] *)
Definition erase_location (plate : string) : M unit := fun w =>
  Done (tt, mkWorld (mk (delete plate (vehicleLocations (lot w)))
                        (vehiclesMap (lot w)) (floors (lot w)))
                    (cout w)).

(** [vehiclesMap.find(plate)] *)
Definition find_record (plate : string) : M (option Vehicle) := fun w =>
  Done (vehiclesMap (lot w) !! plate, w).

(** [vehiclesMap[plate] = vehicle] *)
Definition set_record (plate : string) (vehicle : Vehicle) : M unit :=
  fun w =>
    Done (tt, mkWorld (mk (vehicleLocations (lot w))
                          (<[plate := vehicle]> (vehiclesMap (lot w)))
                          (floors (lot w)))
                      (cout w)).

(** [delete vt->second; vehiclesMap.erase(vt)] *)
Definition erase_record (plate : string) : M unit := fun w =>
  Done (tt, mkWorld (mk (vehicleLocations (lot w))
                        (delete plate (vehiclesMap (lot w)))
                        (floors (lot w)))
                    (cout w)).

(** The range-for of [parkVehicle] over the floors still [todo];
    [Some b] is an early [return b], [None] falls out of the loop. *)
Fixpoint park_scan (vehicle : Vehicle) (todo : list nat) : M (option bool) :=
  match todo with
  | [] => pure None
  | n :: rest =>
      let floor := Z.of_nat n in
      let* availableSpots :=
        read_floor floor (Floor.findAvailableSpots vehicle) in
      match availableSpots with
      | [] => park_scan vehicle rest
      | _ :: _ =>
          let* ok :=
            call_floor floor (Floor.parkVehicle vehicle availableSpots) in
          if ok then
            let* floorNumber :=
              read_floor floor (fun f => Done (Floor.floorNumber f)) in
            set_location (licensePlate vehicle) (floorNumber, availableSpots);;
            set_record (licensePlate vehicle) vehicle;;
            print (Parked (licensePlate vehicle) floorNumber availableSpots);;
            pure (Some true)
          else park_scan vehicle rest
      end
  end.

Definition parkVehicle (vehicle : Vehicle) : M bool :=
  let* it := find_location (licensePlate vehicle) in
  match it with
  | Some _ =>
      print (AlreadyParked (licensePlate vehicle));;
      pure false
  | None =>
      let* n := floor_count in
      let* r := park_scan vehicle (seq 0 n) in
      match r with
      | Some b => pure b
      | None =>
          print (NoSuitableSpot (licensePlate vehicle));;
          pure false
      end
  end.

(** [floors[floorNumber]] converts the [int] to [size_t]. *)
Definition removeVehicle (plate : string) : M bool :=
  let* it := find_location plate in
  match it with
  | None =>
      print (NotFound plate);;
      pure false
  | Some loc =>
      let floorNumber := loc.1 in
      let* removed :=
        call_floor (to_size_t floorNumber)
          (fun f => Done (Floor.removeVehicle plate f)) in
      if removed then
        erase_location plate;;
        let* vt := find_record plate in
        match vt with
        | Some _ => erase_record plate
        | None => pure tt
        end;;
        print (Removed plate floorNumber);;
        pure true
      else pure false
  end.

Fixpoint collect_counts (todo : list nat) (available : list Z)
  : M (list Z) :=
  match todo with
  | [] => pure available
  | n :: rest =>
      let* c := read_floor (Z.of_nat n)
                  (fun f => Done (Floor.availableSpotsCount f)) in
      collect_counts rest (available ++ [c])
  end.

Definition getAvailableSpotsPerFloor : M (list Z) :=
  let* n := floor_count in
  collect_counts (seq 0 n) [].

Fixpoint all_full (todo : list nat) : M bool :=
  match todo with
  | [] => pure true
  | n :: rest =>
      let* c := read_floor (Z.of_nat n)
                  (fun f => Done (Floor.availableSpotsCount f)) in
      if c >? 0 then pure false else all_full rest
  end.

Definition isFull : M bool :=
  let* n := floor_count in
  all_full (seq 0 n).

Definition findVehicle (plate : string) : M unit :=
  let* it := find_location plate in
  match it with
  | Some location => print (Located plate location.1 location.2)
  | None => print (NotFound plate)
  end.

(** A freshly constructed lot and an empty terminal. *)
Definition start (numFloors spotsPerFloor : Z) : World :=
  mkWorld (new numFloors spotsPerFloor) [].

End ParkingLot.

(** ** Vocabulary of the statements *)

Import ParkingLot.

(** Spot [j] of the vector exists and is free. *)
Definition free_at (spots : list ParkingSpot.t) (j : nat) : bool :=
  match spots !! j with
  | Some s => negb (ParkingSpot.isOccupied s)
  | None => false
  end.

(** Spots [j .. j+k-1] exist and are all free. *)
Definition fits (spots : list ParkingSpot.t) (k j : nat) : bool :=
  forallb (fun d => free_at spots (j + d)%nat) (seq 0 k).

Definition no_fit (spots : list ParkingSpot.t) (k : nat) : Prop :=
  forall j, fits spots k j = false.

Definition first_fit (spots : list ParkingSpot.t) (k j : nat) : Prop :=
  fits spots k j = true /\ forall j', (j' < j)%nat -> fits spots k j' = false.

(** What the truck loop, entered at index [n], may end with: nothing
    when no pair of free neighbours starts at or after [n], else the
    numbers of the first such pair. *)
Definition pair_from (spots : list ParkingSpot.t) (n : nat) (r : list Z) : Prop :=
  (r = [] /\ forall j, (n <= j)%nat -> fits spots 2 j = false) \/
  (exists j a b, (n <= j)%nat /\ spots !! j = Some a /\
     spots !! S j = Some b /\
     r = [ParkingSpot.spotNumber a; ParkingSpot.spotNumber b] /\
     fits spots 2 j = true /\
     forall j', (n <= j' < j)%nat -> fits spots 2 j' = false).

(** The index list [j; j+1; ...] of length [k]. *)
Definition run_from (j k : nat) : list Z := Z.of_nat <$> seq j k.

Definition required (v : Vehicle) : nat := Z.to_nat (getRequiredSpots v).

Definition held_by (plate : string) (s : ParkingSpot.t) : bool :=
  ParkingSpot.isOccupied s && bool_decide (ParkingSpot.parkedVehicle s = plate).

(** What [assignVehicle] and [removeVehicle] leave in a spot. *)
Definition taken (plate : string) (s : ParkingSpot.t) : ParkingSpot.t :=
  (ParkingSpot.assignVehicle plate s).2.

Definition vacated (plate : string) (s : ParkingSpot.t) : ParkingSpot.t :=
  if held_by plate s then (ParkingSpot.removeVehicle s).2 else s.

(** How many spots of the vector hold [plate]. *)
Definition held_count (plate : string) (spots : list ParkingSpot.t) : Z :=
  Z.of_nat (length (filter (fun s => held_by plate s = true) spots)).

(** Floor [n] as the constructor numbers it, with a size that fits
    [int]. *)
Record floor_ok (n : nat) (f : Floor.t) : Prop := {
  ok_floorNumber : Floor.floorNumber f = Z.of_nat n;
  ok_spotNumber : forall i s,
    Floor.spots f !! i = Some s -> ParkingSpot.spotNumber s = Z.of_nat i;
  ok_size : size (Floor.spots f) <= INT_MAX
}.

(** A floor the scan of [parkVehicle] passes over: nothing proposed, or
    the proposal refused. *)
Definition passed_over (v : Vehicle) (f : Floor.t) : Prop :=
  Floor.findAvailableSpots v f = Done [] \/
  exists l, Floor.findAvailableSpots v f = Done l /\
            Floor.parkVehicle v l f = Done (false, f).


(** The world [parkVehicle] leaves after parking [v] on floor [n], now
    [f'], at the spots [l]. *)
Definition parked_world (w : World) (v : Vehicle) (n : nat) (f' : Floor.t)
    (l : list Z) : World :=
  mkWorld
    (mk (<[licensePlate v := (Floor.floorNumber f', l)]>
           (vehicleLocations (lot w)))
        (<[licensePlate v := v]> (vehiclesMap (lot w)))
        (<[n := f']> (floors (lot w))))
    (cout w ++ [Parked (licensePlate v) (Floor.floorNumber f') l]).

(** The world [removeVehicle] leaves after releasing [plate] on the
    floor recorded as [floorNumber], now [f']. *)
Definition removed_world (w : World) (plate : string) (floorNumber : Z)
    (f' : Floor.t) : World :=
  mkWorld
    (mk (delete plate (vehicleLocations (lot w)))
        (delete plate (vehiclesMap (lot w)))
        (<[Z.to_nat (to_size_t floorNumber) := f']> (floors (lot w))))
    (cout w ++ [Removed plate floorNumber]).

Definition printed (w : World) (m : Msg) : World :=
  mkWorld (lot w) (cout w ++ [m]).

(** What the scan of [parkVehicle] over floors [a .. b-1] may end with:
    it fell out of the loop having passed over all of them and left the
    world alone, or it returned true from the first floor [n] it did not
    pass over. *)
Definition scanned (v : Vehicle) (a b : nat) (w : World)
    (r : option bool) (w' : World) : Prop :=
  (r = None /\ w' = w /\
   forall m, (a <= m < b)%nat ->
     exists f, floors (lot w) !! m = Some f /\ passed_over v f) \/
  (r = Some true /\
   exists n f l f', (a <= n < b)%nat /\
     (forall m, (a <= m < n)%nat ->
        exists f0, floors (lot w) !! m = Some f0 /\ passed_over v f0) /\
     floors (lot w) !! n = Some f /\
     Floor.findAvailableSpots v f = Done l /\ l <> [] /\
     Floor.parkVehicle v l f = Done (true, f') /\
     w' = parked_world w v n f' l).

(** ** The invariant of the lot *)

Definition spot_at (l : ParkingLot.t) (f i : nat) : option ParkingSpot.t :=
  match floors l !! f with
  | Some fl => Floor.spots fl !! i
  | None => None
  end.

(** Spot [i] of floor [f] is occupied and carries [plate]. *)
Definition occupied_by (l : ParkingLot.t) (plate : string) (f i : nat) : Prop :=
  exists s, spot_at l f i = Some s /\
            ParkingSpot.isOccupied s = true /\
            ParkingSpot.parkedVehicle s = plate.

(** [vehicleLocations] has an entry for [plate] that names floor [f] and
    lists spot [i]. *)
Definition listed (l : ParkingLot.t) (plate : string) (f i : nat) : Prop :=
  exists I, vehicleLocations l !! plate = Some (Z.of_nat f, I) /\
            Z.of_nat i ∈ I.

Record lot_inv (l : ParkingLot.t) : Prop := {
  inv_floors : forall n f, floors l !! n = Some f -> floor_ok n f;
  inv_floor_count : size (floors l) <= INT_MAX;
  inv_occupied : forall p f i, occupied_by l p f i -> listed l p f i;
  inv_listed : forall p fz I iz,
    vehicleLocations l !! p = Some (fz, I) -> iz ∈ I ->
    exists f i, fz = Z.of_nat f /\ iz = Z.of_nat i /\ occupied_by l p f i;
  inv_records : forall p,
    vehicleLocations l !! p = None <-> vehiclesMap l !! p = None;
  inv_blank : forall f i s,
    spot_at l f i = Some s -> ParkingSpot.isOccupied s = false ->
    ParkingSpot.parkedVehicle s = EmptyString;
  inv_entry_floor : forall p fz I,
    vehicleLocations l !! p = Some (fz, I) ->
    exists n, fz = Z.of_nat n /\ (n < length (floors l))%nat
}.

(** The worlds the program can be in: a constructed lot, then any
    number of completed calls of the public methods. *)
Inductive reachable : World -> Prop :=
| reach_start numFloors spotsPerFloor :
    int_range numFloors -> int_range spotsPerFloor ->
    reachable (start numFloors spotsPerFloor)
| reach_parkVehicle w v b w' :
    reachable w -> parkVehicle v w = Done (b, w') -> reachable w'
| reach_removeVehicle w plate b w' :
    reachable w -> removeVehicle plate w = Done (b, w') -> reachable w'
| reach_getAvailableSpotsPerFloor w r w' :
    reachable w -> getAvailableSpotsPerFloor w = Done (r, w') -> reachable w'
| reach_isFull w b w' :
    reachable w -> isFull w = Done (b, w') -> reachable w'
| reach_findVehicle w plate u w' :
    reachable w -> findVehicle plate w = Done (u, w') -> reachable w'.

(** The free count of every floor, in floor order. *)
Definition free_counts (l : ParkingLot.t) : list Z :=
  Floor.availableSpotsCount <$> floors l.

(** ** Worlds and vehicles used in the examples *)

(** The world a completed call leaves behind. *)
Definition world_after {A} (r : exec (A * World)) : World :=
  match r with
  | Done (_, w) => w
  | _ => start 0 0
  end.

Definition car_C1 : Vehicle := mkVehicle "C1" Car.
Definition truck_T1 : Vehicle := mkVehicle "T1" Truck.
Definition car_X : Vehicle := mkVehicle "X" Car.
Definition bike_X : Vehicle := mkVehicle "X" Bike.

(** One floor of four spots with car C1 on spot 0. *)
Definition lot_1x4_C1 : World := world_after (parkVehicle car_C1 (start 1 4)).

(** The same after truck T1 parked. *)
Definition lot_1x4_C1_T1 : World := world_after (parkVehicle truck_T1 lot_1x4_C1).

(** One floor of two spots with car X on spot 0. *)
Definition lot_1x2_X : World := world_after (parkVehicle car_X (start 1 2)).

(** One floor with a single spot, taken by car C1. *)
Definition lot_1x1_C1 : World := world_after (parkVehicle car_C1 (start 1 1)).

(** A floor whose two spots hold truck T1. *)
Definition floor_with_truck : Floor.t :=
  Floor.mk 0 [ParkingSpot.mk 0 0 true "T1"; ParkingSpot.mk 0 1 true "T1"].

(** A lot whose index still lists X on floor 0 after the spot was
    released behind its back, as [lot.floors[0]->removeVehicle("X")]
    does through the public member [floors]. *)
Definition out_of_step : World :=
  mkWorld (mk {["X" := (0, [0])]} {["X" := car_X]} [Floor.new 0 1]) [].

(** ** Vocabulary of the further properties *)

(** How many spots of the vector are free, and how many are occupied. *)
Definition free_number (spots : list ParkingSpot.t) : Z :=
  Z.of_nat (length (filter (fun s => ParkingSpot.isOccupied s = false) spots)).

Definition occupied_number (spots : list ParkingSpot.t) : Z :=
  Z.of_nat (length (filter (fun s => ParkingSpot.isOccupied s = true) spots)).

(** Every entry of [vehicleLocations] has its record in [vehiclesMap],
    filed under the record's own plate, and lists a run of as many
    consecutive indices as the recorded vehicle requires. *)
Definition index_shape (l : ParkingLot.t) : Prop :=
  forall p floorNumber I,
    vehicleLocations l !! p = Some (floorNumber, I) ->
    exists vehicle j,
      vehiclesMap l !! p = Some vehicle /\
      licensePlate vehicle = p /\
      I = run_from j (required vehicle).

(** Two lots with the same floors and spots, whatever their occupancy:
    as many floors, each with its number, as many spots on each, each
    with its numbers. *)
Definition same_layout (l l' : ParkingLot.t) : Prop :=
  length (floors l') = length (floors l) /\
  forall n f, floors l !! n = Some f ->
    exists f', floors l' !! n = Some f' /\
      Floor.floorNumber f' = Floor.floorNumber f /\
      length (Floor.spots f') = length (Floor.spots f) /\
      forall i s, Floor.spots f !! i = Some s ->
        exists s', Floor.spots f' !! i = Some s' /\
          ParkingSpot.spotNumber s' = ParkingSpot.spotNumber s /\
          ParkingSpot.floorNumber s' = ParkingSpot.floorNumber s.

(** No floor of the lot is without spots. *)
Definition no_empty_floor (l : ParkingLot.t) : Prop :=
  forall n f, floors l !! n = Some f -> Floor.spots f <> [].

(** ** Machine integers and vector access *)

Lemma to_size_t_small z : 0 <= z < 2 ^ 64 -> to_size_t z = z.
Proof. intros H. unfold to_size_t, SIZE_WIDTH. by apply Z.mod_small. Qed.

Lemma to_size_t_nat (n : nat) : Z.of_nat n <= INT_MAX -> to_size_t (Z.of_nat n) = Z.of_nat n.
Proof. unfold INT_MAX. intros H. apply to_size_t_small. lia. Qed.

Lemma to_int_small z : int_range z -> to_int z = z.
Proof.
  unfold int_range, INT_MAX, to_int. intros H.
  rewrite Z.mod_small; lia.
Qed.

Lemma to_int_le z : 0 <= z -> to_int z <= z.
Proof.
  unfold to_int. intros H.
  pose proof (Z.mod_le (z + 2 ^ 31) (2 ^ 32)). lia.
Qed.

Lemma at_index_nat {A} (v : list A) (n : nat) :
  at_index v (Z.of_nat n) =
  match v !! n with Some x => Done x | None => Undefined end.
Proof.
  unfold at_index, size. rewrite Nat2Z.id.
  destruct (v !! n) eqn:E.
  - apply lookup_lt_Some in E.
    replace (0 <=? Z.of_nat n) with true by (symmetry; apply Z.leb_le; lia).
    replace (Z.of_nat n <? Z.of_nat (length v)) with true
      by (symmetry; apply Z.ltb_lt; lia).
    done.
  - by destruct (_ && _).
Qed.

Lemma at_index_Done {A} (v : list A) (i : Z) (x : A) :
  at_index v i = Done x <-> 0 <= i /\ v !! Z.to_nat i = Some x.
Proof.
  unfold at_index, size. split.
  - destruct (0 <=? i) eqn:E1; simpl; [|done].
    destruct (i <? _); [|done].
    destruct (v !! Z.to_nat i) eqn:E; [|done].
    intros [= ->]. split; [lia | done].
  - intros [H0 E]. pose proof (lookup_lt_Some _ _ _ E).
    replace (0 <=? i) with true by (symmetry; apply Z.leb_le; lia).
    replace (i <? Z.of_nat (length v)) with true
      by (symmetry; apply Z.ltb_lt; lia).
    by rewrite E.
Qed.

(** ** The per-floor search *)

Lemma fits_1 spots j : fits spots 1 j = free_at spots j.
Proof.
  unfold fits. simpl. rewrite Nat.add_0_r. apply andb_true_r.
Qed.

Lemma fits_2 spots j : fits spots 2 j = free_at spots j && free_at spots (S j).
Proof.
  unfold fits. simpl. rewrite Nat.add_0_r, Nat.add_1_r, andb_true_r. done.
Qed.

Lemma free_at_Some spots j s :
  spots !! j = Some s -> free_at spots j = negb (ParkingSpot.isOccupied s).
Proof. unfold free_at. by intros ->. Qed.

Lemma free_at_true spots j :
  free_at spots j = true <->
  exists s, spots !! j = Some s /\ ParkingSpot.isOccupied s = false.
Proof.
  unfold free_at. destruct (spots !! j) as [s|]; split.
  - intros H. exists s. split; [done|]. by destruct (ParkingSpot.isOccupied s).
  - intros (s' & [= <-] & ->). done.
  - done.
  - intros (s' & [=] & _).
Qed.

Lemma find_single_nil spots :
  Floor.find_single spots = [] -> forall j, free_at spots j = false.
Proof.
  induction spots as [|s rest IH]; simpl; intros H j.
  - unfold free_at. by rewrite lookup_nil.
  - destruct (ParkingSpot.isOccupied s) eqn:E; simpl in H; [|done].
    destruct j as [|j]; unfold free_at; simpl.
    + by rewrite E.
    + apply IH, H.
Qed.

Lemma find_single_cons spots x l :
  Floor.find_single spots = x :: l ->
  exists j s, spots !! j = Some s /\ ParkingSpot.isOccupied s = false /\
              x = ParkingSpot.spotNumber s /\ l = [] /\
              forall j', (j' < j)%nat -> free_at spots j' = false.
Proof.
  induction spots as [|s rest IH]; simpl; [done|].
  destruct (ParkingSpot.isOccupied s) eqn:E; simpl.
  - intros H. destruct (IH H) as (j & s' & Hj & Hfree & -> & -> & Hmin).
    exists (S j), s'. repeat split; try done.
    intros [|j'] Hlt; unfold free_at; simpl.
    + by rewrite E.
    + apply Hmin. lia.
  - intros [= <- <-]. exists 0%nat, s. repeat split; try done. lia.
Qed.

Lemma pair_from_skip spots n r :
  fits spots 2 n = false -> pair_from spots (S n) r -> pair_from spots n r.
Proof.
  intros Hn [[-> Hnone] | (j & a & b & Hj & Ha & Hb & -> & Hfit & Hmin)].
  - left. split; [done|]. intros j Hj.
    destruct (decide (j = n)) as [->|]; [done|]. apply Hnone. lia.
  - right. exists j, a, b. repeat split; try done; try lia.
    intros j' Hj'. destruct (decide (j' = n)) as [->|]; [done|].
    apply Hmin. lia.
Qed.

(** The truck loop entered at [n] with enough fuel ends on its own:
    either with the first free pair at or after [n], or with nothing
    when no such pair exists. *)
Lemma find_pair_spec spots fuel n :
  (1 <= length spots)%nat -> size spots <= INT_MAX ->
  (1 <= fuel)%nat -> (length spots <= n + fuel)%nat ->
  exists r, Floor.find_pair fuel spots (Z.of_nat n) = Done r /\
            pair_from spots n r.
Proof.
  unfold size, INT_MAX. intros Hlen Hmax.
  revert n. induction fuel as [|fuel IH]; intros n Hfuel Hn; [lia|].
  simpl. rewrite to_size_t_small by (unfold size; lia).
  unfold size. destruct (Z.of_nat n <? Z.of_nat (length spots) - 1) eqn:Hcond.
  - apply Z.ltb_lt in Hcond.
    rewrite at_index_nat.
    destruct (lookup_lt_is_Some_2 spots n) as [a Ha]; [lia|].
    destruct (lookup_lt_is_Some_2 spots (S n)) as [b Hb]; [lia|].
    rewrite Ha. simpl.
    assert (Hnext : to_size_t (Z.of_nat n + 1) = Z.of_nat (S n))
      by (rewrite to_size_t_small; lia).
    rewrite Hnext.
    assert (Hskip : fits spots 2 n = false ->
      exists r, Floor.find_pair fuel spots (Z.of_nat (S n)) = Done r /\
                pair_from spots n r).
    { intros Hn0. destruct (IH (S n)) as (r & Hr & Hfrom); [lia | lia |].
      exists r. split; [done|]. by apply pair_from_skip. }
    destruct (ParkingSpot.isOccupied a) eqn:Ea; simpl.
    + apply Hskip. rewrite fits_2, (free_at_Some _ _ _ Ha), Ea. done.
    + rewrite at_index_nat, Hb. simpl.
      destruct (ParkingSpot.isOccupied b) eqn:Eb; simpl.
      * apply Hskip.
        rewrite fits_2, (free_at_Some _ _ _ Ha), (free_at_Some _ _ _ Hb), Ea, Eb.
        done.
      * eexists. split; [done|]. right.
        exists n, a, b. repeat split; try done; try lia.
        rewrite fits_2, (free_at_Some _ _ _ Ha), (free_at_Some _ _ _ Hb), Ea, Eb.
        done.
  - apply Z.ltb_ge in Hcond.
    exists []. split; [done|]. left. split; [done|].
    intros j Hj. rewrite fits_2.
    unfold free_at at 2. rewrite lookup_ge_None_2 by lia.
    apply andb_false_r.
Qed.

(** On a floor without spots the bound [spots.size() - 1] wraps to
    [2^64 - 1] and the first iteration reads [spots[0]]. *)
Lemma find_pair_empty fuel : Floor.find_pair (S fuel) [] 0 = Undefined.
Proof. reflexivity. Qed.

Lemma required_cases v :
  (type v = Truck /\ getRequiredSpots v = 2 /\ required v = 2%nat) \/
  (type v <> Truck /\ getRequiredSpots v = 1 /\ required v = 1%nat).
Proof.
  unfold required, getRequiredSpots. destruct (type v); [right|right|left]; done.
Qed.

(** What [findAvailableSpots] proposes on a floor numbered by the
    constructor: nothing when the vehicle does not fit, else the run
    that starts at the smallest fitting index. *)
Lemma findAvailableSpots_spec n f v l :
  floor_ok n f ->
  Floor.findAvailableSpots v f = Done l ->
  (l = [] /\ no_fit (Floor.spots f) (required v)) \/
  (exists j, l = run_from j (required v) /\
             first_fit (Floor.spots f) (required v) j).
Proof.
  intros [_ Hnum Hsize]. unfold Floor.findAvailableSpots. cbv zeta.
  destruct (required_cases v) as [(_ & -> & ->) | (_ & -> & ->)].
  all: cbn [Z.eqb Pos.eqb].
  - destruct (Floor.spots f) as [|s0 rest] eqn:Espots; [done|].
    rewrite <- Espots in *.
    assert (Hlen : (1 <= length (Floor.spots f))%nat)
      by (rewrite Espots; simpl; lia).
    destruct (find_pair_spec (Floor.spots f) (S (length (Floor.spots f))) 0
                Hlen Hsize) as (r & Hr & Hcases); [lia | lia |].
    unfold pair_from in Hcases.
    change (Z.of_nat 0) with 0 in Hr. rewrite Hr. intros [= <-].
    destruct Hcases as [[-> Hnone] | (j & a & b & _ & Ha & Hb & -> & Hfit & Hmin)].
    + left. split; [done|]. intros j. apply Hnone. lia.
    + right. exists j. split.
      * unfold run_from. simpl.
        by rewrite (Hnum _ _ Ha), (Hnum _ _ Hb).
      * split; [done|]. intros j' Hj'. apply Hmin. lia.
  - intros [= <-].
    destruct (Floor.find_single (Floor.spots f)) as [|x l] eqn:E.
    + left. split; [done|]. intros j. rewrite fits_1.
      by apply find_single_nil.
    + right. apply find_single_cons in E
        as (j & s & Hj & Hfree & -> & -> & Hmin).
      exists j. split.
      * unfold run_from. simpl. by rewrite (Hnum _ _ Hj).
      * split.
        -- rewrite fits_1, (free_at_Some _ _ _ Hj), Hfree. done.
        -- intros j' Hj'. rewrite fits_1. by apply Hmin.
Qed.

(** The search ends without a fault unless a truck meets an empty
    floor. *)
Lemma findAvailableSpots_total f v :
  size (Floor.spots f) <= INT_MAX ->
  (Floor.spots f <> [] \/ type v <> Truck) ->
  exists l, Floor.findAvailableSpots v f = Done l.
Proof.
  intros Hsize Hor. unfold Floor.findAvailableSpots. cbv zeta.
  destruct (required_cases v) as [(Ht & -> & _) | (_ & -> & _)].
  all: cbn [Z.eqb Pos.eqb].
  - destruct Hor as [Hne|]; [|done].
    assert (Hlen : (1 <= length (Floor.spots f))%nat).
    { destruct (Floor.spots f); [done | simpl; lia]. }
    destruct (find_pair_spec (Floor.spots f) (S (length (Floor.spots f))) 0
                Hlen Hsize) as (r & Hr & _); [lia | lia |].
    exists r. exact Hr.
  - eauto.
Qed.

Lemma findAvailableSpots_truck_empty f v :
  Floor.spots f = [] -> type v = Truck ->
  Floor.findAvailableSpots v f = Undefined.
Proof.
  intros Hs Ht. unfold Floor.findAvailableSpots, getRequiredSpots.
  rewrite Hs, Ht. reflexivity.
Qed.

(** The fuel given to the truck loop is never the reason the search
    stops. *)
Lemma findAvailableSpots_fuel f v :
  size (Floor.spots f) <= INT_MAX ->
  Floor.findAvailableSpots v f <> OutOfFuel.
Proof.
  intros Hsize.
  pose proof (findAvailableSpots_total f v Hsize) as Htotal.
  destruct (Floor.spots f) as [|s rest] eqn:Es.
  - destruct (type v) eqn:Et.
    + destruct Htotal as [l ->]; [|done]. by right.
    + destruct Htotal as [l ->]; [|done]. by right.
    + by rewrite (findAvailableSpots_truck_empty f v Es Et).
  - destruct Htotal as [l ->]; [|done]. by left.
Qed.

(** ** The per-floor commit *)

Lemma verify_Done_true spots l :
  Floor.verify spots l = Done true ->
  forall idx, idx ∈ l ->
    exists j, idx = Z.of_nat j /\ free_at spots j = true /\ to_size_t idx = idx.
Proof.
  induction l as [|i rest IH]; simpl; intros H idx Hin.
  - by apply elem_of_nil in Hin.
  - destruct (i <? 0) eqn:E0; [done|]. apply Z.ltb_ge in E0.
    destruct (i >=? to_int (size spots)) eqn:E1; [done|].
    assert (Hi : i < to_int (size spots)) by (rewrite Z.geb_leb in E1; apply Z.leb_gt in E1; lia).
    assert (Hbound : to_int (size spots) < 2 ^ 31).
    { unfold to_int. pose proof (Z.mod_pos_bound (size spots + 2 ^ 31) (2 ^ 32)). lia. }
    assert (Hsz : to_size_t i = i) by (apply to_size_t_small; lia).
    rewrite Hsz in H.
    destruct (at_index spots i) as [s| |] eqn:Es; simpl in H; try done.
    apply at_index_Done in Es as [_ Es].
    destruct (ParkingSpot.isOccupied s) eqn:Eo; [done|].
    apply elem_of_cons in Hin as [-> | Hin]; [|by apply IH].
    exists (Z.to_nat i). split; [lia|]. split; [|done].
    by rewrite (free_at_Some _ _ _ Es), Eo.
Qed.

Lemma verify_free spots l :
  size spots <= INT_MAX ->
  (forall idx, idx ∈ l -> exists j, idx = Z.of_nat j /\ free_at spots j = true) ->
  Floor.verify spots l = Done true.
Proof.
  intros Hsize. induction l as [|i rest IH]; simpl; intros H; [done|].
  destruct (H i) as (j & -> & Hfree); [by left|].
  apply free_at_true in Hfree as (s & Hs & Hfree).
  pose proof (lookup_lt_Some _ _ _ Hs) as Hlt.
  assert (Hsz : size spots = Z.of_nat (length spots)) by done.
  replace (Z.of_nat j <? 0) with false by (symmetry; apply Z.ltb_ge; lia).
  rewrite to_int_small by (unfold int_range, INT_MAX in *; lia).
  replace (Z.of_nat j >=? size spots) with false
    by (symmetry; rewrite Z.geb_leb; apply Z.leb_gt; lia).
  rewrite to_size_t_nat by (unfold INT_MAX in *; lia).
  rewrite at_index_nat, Hs. simpl. rewrite Hfree.
  apply IH. intros idx Hin. apply H. by right.
Qed.

Lemma taken_idem plate s : taken plate (taken plate s) = taken plate s.
Proof.
  unfold taken, ParkingSpot.assignVehicle.
  destruct (ParkingSpot.isOccupied s) eqn:E; simpl; by rewrite ?E.
Qed.

(** The assignment loop rewrites exactly the listed spots. *)
Lemma assign_all_spec plate l spots :
  (forall idx, idx ∈ l ->
     exists j, idx = Z.of_nat j /\ (j < length spots)%nat /\ to_size_t idx = idx) ->
  exists spots', Floor.assign_all plate spots l = Done spots' /\
    forall i, spots' !! i =
      (fun s => if bool_decide (Z.of_nat i ∈ l) then taken plate s else s)
        <$> spots !! i.
Proof.
  revert spots. induction l as [|idx rest IH]; intros spots H; simpl.
  - exists spots. split; [done|]. intros i.
    by destruct (spots !! i).
  - destruct (H idx) as (j & -> & Hlt & Hsz); [by left|].
    rewrite Hsz, at_index_nat, Nat2Z.id.
    destruct (lookup_lt_is_Some_2 spots j Hlt) as [s Hs]. rewrite Hs. simpl.
    fold (taken plate s).
    destruct (IH (<[j := taken plate s]> spots)) as (spots' & Hrun & Hlook).
    { intros idx Hin. destruct (H idx) as (j' & -> & Hlt' & Hsz'); [by right|].
      exists j'. rewrite length_insert. done. }
    exists spots'. split; [done|]. intros i. rewrite Hlook.
    destruct (decide (i = j)) as [-> | Hne].
    + rewrite list_lookup_insert_eq by done. rewrite Hs. simpl. f_equal.
      rewrite (bool_decide_eq_true_2 (Z.of_nat j ∈ Z.of_nat j :: rest)) by by left.
      case_bool_decide; [apply taken_idem | done].
    + rewrite list_lookup_insert_ne by done.
      destruct (spots !! i) as [si|]; simpl; [|done]. f_equal.
      assert (Hiff : Z.of_nat i ∈ Z.of_nat j :: rest <-> Z.of_nat i ∈ rest).
      { rewrite elem_of_cons. split; [|by right]. intros [?|?]; [lia|done]. }
      by rewrite (bool_decide_ext _ _ Hiff).
Qed.

(** The effect of the floor's [parkVehicle]: refused proposals leave
    the floor as it was; accepted ones were all free and are now
    taken. *)
Lemma Floor_parkVehicle_spec v l f b f' :
  Floor.parkVehicle v l f = Done (b, f') ->
  if b then
    (forall idx, idx ∈ l ->
       exists j, idx = Z.of_nat j /\ free_at (Floor.spots f) j = true) /\
    Floor.floorNumber f' = Floor.floorNumber f /\
    forall i, Floor.spots f' !! i =
      (fun s => if bool_decide (Z.of_nat i ∈ l)
                then taken (licensePlate v) s else s)
        <$> Floor.spots f !! i
  else f' = f.
Proof.
  unfold Floor.parkVehicle.
  destruct (Floor.verify (Floor.spots f) l) as [ok| |] eqn:Ev; simpl; try done.
  destruct ok; [|by intros [= <- <-]].
  pose proof (verify_Done_true _ _ Ev) as Hfree.
  destruct (assign_all_spec (licensePlate v) l (Floor.spots f))
    as (spots' & Hrun & Hlook).
  { intros idx Hin. destruct (Hfree idx Hin) as (j & -> & Hj & Hsz).
    exists j. repeat split; try done.
    apply free_at_true in Hj as (s & Hs & _). by apply lookup_lt_Some in Hs. }
  rewrite Hrun. simpl. intros [= <- <-]. simpl. split; [|done].
  intros idx Hin. destruct (Hfree idx Hin) as (j & -> & Hj & _). eauto.
Qed.

Lemma Floor_parkVehicle_accepts v l n f :
  floor_ok n f ->
  (forall idx, idx ∈ l ->
     exists j, idx = Z.of_nat j /\ free_at (Floor.spots f) j = true) ->
  exists f', Floor.parkVehicle v l f = Done (true, f').
Proof.
  intros [_ _ Hsize] Hfree. unfold Floor.parkVehicle.
  rewrite (verify_free _ _ Hsize Hfree). simpl.
  destruct (assign_all_spec (licensePlate v) l (Floor.spots f))
    as (spots' & Hrun & _).
  { intros idx Hin. destruct (Hfree idx Hin) as (j & -> & Hj).
    exists j. repeat split; try done.
    - apply free_at_true in Hj as (s & Hs & _). by apply lookup_lt_Some in Hs.
    - apply to_size_t_nat.
      apply free_at_true in Hj as (s & Hs & _). apply lookup_lt_Some in Hs.
      unfold size in Hsize. lia. }
  rewrite Hrun. simpl. eauto.
Qed.

(** ** The per-floor release *)

Lemma vacated_not_held plate s : held_by plate s = false -> vacated plate s = s.
Proof. unfold vacated. by intros ->. Qed.

Lemma vacated_held plate s :
  held_by plate s = true -> vacated plate s = (ParkingSpot.removeVehicle s).2.
Proof. unfold vacated. by intros ->. Qed.

Lemma release_spec plate spots removed :
  Floor.release plate spots removed =
  (removed || existsb (held_by plate) spots, vacated plate <$> spots).
Proof.
  revert removed. induction spots as [|s rest IH]; intros removed; simpl.
  - by rewrite orb_false_r.
  - fold (held_by plate s).
    destruct (held_by plate s) eqn:E; rewrite IH; simpl.
    + by rewrite (vacated_held _ _ E), orb_true_r.
    + by rewrite (vacated_not_held _ _ E).
Qed.

Lemma Floor_removeVehicle_spec plate f :
  Floor.removeVehicle plate f =
  (existsb (held_by plate) (Floor.spots f),
   Floor.mk (Floor.floorNumber f) (vacated plate <$> Floor.spots f)).
Proof. unfold Floor.removeVehicle. by rewrite release_spec. Qed.

Lemma vacated_all_id plate spots :
  existsb (held_by plate) spots = false -> vacated plate <$> spots = spots.
Proof.
  induction spots as [|s rest IH]; [done|].
  intros H. simpl in H. apply orb_false_elim in H as [Hs Hrest].
  by rewrite fmap_cons, (vacated_not_held _ _ Hs), IH.
Qed.

(** ** Running the methods of the lot *)

Lemma world_eta w : mkWorld (lot w) (cout w) = w.
Proof. by destruct w. Qed.

Lemma lot_eta l : mk (vehicleLocations l) (vehiclesMap l) (floors l) = l.
Proof. by destruct l. Qed.

Lemma floor_eta f : Floor.mk (Floor.floorNumber f) (Floor.spots f) = f.
Proof. by destruct f. Qed.

Lemma read_floor_nat {A} (n : nat) (method : Floor.t -> exec A) w :
  read_floor (Z.of_nat n) method w =
  match floors (lot w) !! n with
  | Some f => exec_bind (method f) (fun a => Done (a, w))
  | None => Undefined
  end.
Proof.
  unfold read_floor. rewrite at_index_nat.
  by destruct (floors (lot w) !! n).
Qed.

Lemma call_floor_nat {A} (n : nat) (method : Floor.t -> exec (A * Floor.t)) w :
  call_floor (Z.of_nat n) method w =
  match floors (lot w) !! n with
  | Some f =>
      exec_bind (method f) (fun r =>
        Done (r.1, mkWorld (mk (vehicleLocations (lot w)) (vehiclesMap (lot w))
                               (<[n := r.2]> (floors (lot w))))
                           (cout w)))
  | None => Undefined
  end.
Proof.
  unfold call_floor. rewrite at_index_nat, Nat2Z.id.
  by destruct (floors (lot w) !! n).
Qed.

Lemma Floor_parkVehicle_refused v l f f' :
  Floor.parkVehicle v l f = Done (false, f') -> f' = f.
Proof. intros H. exact (Floor_parkVehicle_spec _ _ _ _ _ H). Qed.

Lemma scanned_skip v a b w r w' f :
  floors (lot w) !! a = Some f -> passed_over v f ->
  scanned v (S a) b w r w' -> scanned v a b w r w'.
Proof.
  intros Hf Hp [(-> & -> & Hall) | (-> & n & fn & ln & fn' & Hn & Hbefore & Hrest)].
  - left. repeat split; try done. intros m Hm.
    destruct (decide (m = a)) as [->|]; [eauto|]. apply Hall. lia.
  - right. split; [done|]. exists n, fn, ln, fn'.
    split; [lia|]. split; [|done].
    intros m Hm. destruct (decide (m = a)) as [->|]; [eauto|].
    apply Hbefore. lia.
Qed.

(** The scan over floors [a .. a+k-1]: it either passes over all of
    them and leaves the world alone, or commits on the first floor that
    is not passed over. *)
Lemma park_scan_cases v k a w r w' :
  park_scan v (seq a k) w = Done (r, w') -> scanned v a (a + k) w r w'.
Proof.
  revert a. induction k as [|k IH]; intros a; simpl.
  - intros [= <- <-]. left. repeat split; try done. lia.
  - unfold lot_bind at 1. rewrite read_floor_nat.
    destruct (floors (lot w) !! a) as [f|] eqn:Ef; [|done].
    destruct (Floor.findAvailableSpots v f) as [l| |] eqn:El; simpl; try done.
    assert (Hpass : passed_over v f ->
      park_scan v (seq (S a) k) w = Done (r, w') ->
      scanned v a (a + S k) w r w').
    { intros Hp Hrest. apply (scanned_skip _ _ _ _ _ _ f); try done.
      replace (a + S k)%nat with (S a + k)%nat by lia. by apply IH. }
    destruct l as [|x l].
    + apply Hpass. by left.
    + unfold lot_bind at 1. rewrite call_floor_nat, Ef.
      destruct (Floor.parkVehicle v (x :: l) f) as [[ok f']| |] eqn:Ep;
        simpl; try done.
      destruct ok.
      * unfold lot_bind at 1. rewrite read_floor_nat. simpl.
        rewrite list_lookup_insert_eq by (by apply lookup_lt_Some in Ef).
        simpl. unfold lot_bind, set_location, set_record, print, pure. simpl.
        intros [= <- <-]. right. split; [done|].
        exists a, f, (x :: l), f'. repeat split; try done; try lia.
      * apply Floor_parkVehicle_refused in Ep as Heq. subst f'.
        rewrite list_insert_id by done. rewrite lot_eta, world_eta.
        apply Hpass. right. eauto.
Qed.

Lemma parkVehicle_duplicate v w loc :
  vehicleLocations (lot w) !! licensePlate v = Some loc ->
  parkVehicle v w = Done (false, printed w (AlreadyParked (licensePlate v))).
Proof.
  intros H. unfold parkVehicle, lot_bind, find_location. by rewrite H.
Qed.

(** The three ways a call of [parkVehicle] can end. *)
Lemma parkVehicle_cases v w b w' :
  parkVehicle v w = Done (b, w') ->
  (is_Some (vehicleLocations (lot w) !! licensePlate v) /\ b = false /\
   w' = printed w (AlreadyParked (licensePlate v))) \/
  (vehicleLocations (lot w) !! licensePlate v = None /\ b = false /\
   w' = printed w (NoSuitableSpot (licensePlate v)) /\
   forall m f, floors (lot w) !! m = Some f -> passed_over v f) \/
  (vehicleLocations (lot w) !! licensePlate v = None /\ b = true /\
   exists n f l f',
     (forall m f0, (m < n)%nat -> floors (lot w) !! m = Some f0 ->
                   passed_over v f0) /\
     floors (lot w) !! n = Some f /\
     Floor.findAvailableSpots v f = Done l /\ l <> [] /\
     Floor.parkVehicle v l f = Done (true, f') /\
     w' = parked_world w v n f' l).
Proof.
  unfold parkVehicle, lot_bind at 1, find_location.
  destruct (vehicleLocations (lot w) !! licensePlate v) as [loc|] eqn:Eloc.
  - unfold lot_bind, print, pure. simpl. intros [= <- <-]. left. eauto.
  - unfold lot_bind at 1, floor_count. unfold lot_bind at 1.
    destruct (park_scan v (seq 0 (length (floors (lot w)))) w)
      as [[r w1]| |] eqn:Escan; try done.
    apply park_scan_cases in Escan
      as [(-> & -> & Hall) | (-> & n & f & l & f' & Hn & Hbefore & Hrest)].
    + unfold lot_bind, print, pure. simpl. intros [= <- <-].
      right. left. repeat split; try done.
      intros m f Hm. destruct (Hall m) as (f0 & Hf0 & Hp).
      { apply lookup_lt_Some in Hm. lia. }
      congruence.
    + unfold pure. intros [= <- <-]. right. right. repeat split; try done.
      exists n, f, l, f'. split; [|done].
      intros m f0 Hm Hf0. destruct (Hbefore m) as (f1 & Hf1 & Hp); [lia|].
      congruence.
Qed.

Lemma removeVehicle_absent plate w :
  vehicleLocations (lot w) !! plate = None ->
  removeVehicle plate w = Done (false, printed w (NotFound plate)).
Proof.
  intros H. unfold removeVehicle, lot_bind, find_location. by rewrite H.
Qed.

Lemma removeVehicle_present plate w floorNumber I f :
  vehicleLocations (lot w) !! plate = Some (floorNumber, I) ->
  at_index (floors (lot w)) (to_size_t floorNumber) = Done f ->
  removeVehicle plate w =
  if existsb (held_by plate) (Floor.spots f)
  then Done (true, removed_world w plate floorNumber
                     (Floor.mk (Floor.floorNumber f)
                               (vacated plate <$> Floor.spots f)))
  else Done (false, w).
Proof.
  intros Hloc Hf. unfold removeVehicle, lot_bind at 1, find_location.
  rewrite Hloc. cbv beta iota zeta. unfold lot_bind at 1, call_floor.
  cbn [fst]. rewrite Hf. unfold exec_bind. rewrite Floor_removeVehicle_spec.
  cbn [fst snd].
  apply at_index_Done in Hf as [_ Hf].
  destruct (existsb (held_by plate) (Floor.spots f)) eqn:Eheld.
  - unfold lot_bind, erase_location, find_record, erase_record, print, pure.
    simpl. destruct (vehiclesMap (lot w) !! plate) eqn:Erec; simpl.
    + done.
    + unfold removed_world. by rewrite (delete_id _ _ Erec).
  - unfold pure. rewrite (vacated_all_id _ _ Eheld), floor_eta.
    rewrite list_insert_id by done. by rewrite lot_eta, world_eta.
Qed.

(** ** The queries leave the world alone *)

Lemma collect_counts_frame k a acc w r w' :
  collect_counts (seq a k) acc w = Done (r, w') -> w' = w.
Proof.
  revert a acc. induction k as [|k IH]; intros a acc; simpl.
  - by intros [= _ <-].
  - unfold lot_bind at 1. rewrite read_floor_nat.
    destruct (floors (lot w) !! a); [|done]. simpl. apply IH.
Qed.

Lemma all_full_frame k a w r w' :
  all_full (seq a k) w = Done (r, w') -> w' = w.
Proof.
  revert a. induction k as [|k IH]; intros a; simpl.
  - by intros [= _ <-].
  - unfold lot_bind at 1. rewrite read_floor_nat.
    destruct (floors (lot w) !! a); [|done]. simpl.
    destruct (_ >? 0); [by intros [= _ <-] | apply IH].
Qed.

(** Both loops over the floors end without a fault when every index
    they visit is a floor of the lot. *)
Lemma collect_counts_total k a acc w :
  (a + k <= length (floors (lot w)))%nat ->
  exists r, collect_counts (seq a k) acc w = Done (r, w).
Proof.
  revert a acc. induction k as [|k IH]; intros a acc Hk; simpl.
  - by eexists.
  - unfold lot_bind at 1. rewrite read_floor_nat.
    destruct (lookup_lt_is_Some_2 (floors (lot w)) a) as [f ->]; [lia|].
    simpl. apply IH. lia.
Qed.

Lemma all_full_total k a w :
  (a + k <= length (floors (lot w)))%nat ->
  exists r, all_full (seq a k) w = Done (r, w).
Proof.
  revert a. induction k as [|k IH]; intros a Hk; simpl.
  - by eexists.
  - unfold lot_bind at 1. rewrite read_floor_nat.
    destruct (lookup_lt_is_Some_2 (floors (lot w)) a) as [f ->]; [lia|].
    simpl. destruct (_ >? 0); [by eexists | apply IH; lia].
Qed.

(** ** The invariant holds in every reachable world *)

Lemma lookup_fmap_length {A} (l1 l2 : list A) (h : nat -> A -> A) :
  (forall i, l1 !! i = h i <$> l2 !! i) -> length l1 = length l2.
Proof.
  intros H.
  destruct (Nat.lt_trichotomy (length l1) (length l2)) as [Hlt | [Heq | Hgt]].
  - destruct (lookup_lt_is_Some_2 l2 (length l1) Hlt) as [x Hx].
    pose proof (H (length l1)) as Hl. rewrite Hx in Hl. simpl in Hl.
    apply lookup_lt_Some in Hl. lia.
  - done.
  - destruct (lookup_lt_is_Some_2 l1 (length l2) Hgt) as [x Hx].
    pose proof (H (length l2)) as Hl. rewrite Hx in Hl.
    rewrite (lookup_ge_None_2 l2 (length l2)) in Hl by lia. done.
Qed.

Lemma taken_free plate s :
  ParkingSpot.isOccupied s = false ->
  taken plate s =
  ParkingSpot.mk (ParkingSpot.floorNumber s) (ParkingSpot.spotNumber s) true plate.
Proof. unfold taken, ParkingSpot.assignVehicle. by intros ->. Qed.

Lemma taken_occupied plate s :
  ParkingSpot.isOccupied s = true -> taken plate s = s.
Proof. unfold taken, ParkingSpot.assignVehicle. by intros ->. Qed.

Lemma taken_spotNumber plate s :
  ParkingSpot.spotNumber (taken plate s) = ParkingSpot.spotNumber s.
Proof.
  unfold taken, ParkingSpot.assignVehicle.
  by destruct (ParkingSpot.isOccupied s).
Qed.

Lemma vacated_spotNumber plate s :
  ParkingSpot.spotNumber (vacated plate s) = ParkingSpot.spotNumber s.
Proof.
  unfold vacated, ParkingSpot.removeVehicle.
  destruct (held_by plate s); [|done].
  by destruct (ParkingSpot.isOccupied s).
Qed.

Lemma held_by_true plate s :
  held_by plate s = true <->
  ParkingSpot.isOccupied s = true /\ ParkingSpot.parkedVehicle s = plate.
Proof.
  unfold held_by. rewrite andb_true_iff, bool_decide_eq_true. done.
Qed.

Lemma vacated_held_free plate s :
  held_by plate s = true ->
  vacated plate s =
  ParkingSpot.mk (ParkingSpot.floorNumber s) (ParkingSpot.spotNumber s) false EmptyString.
Proof.
  intros H. rewrite (vacated_held _ _ H).
  apply held_by_true in H as [Ho _].
  unfold ParkingSpot.removeVehicle. by rewrite Ho.
Qed.

Lemma existsb_held_by plate spots :
  existsb (held_by plate) spots = true <->
  exists i s, spots !! i = Some s /\ held_by plate s = true.
Proof.
  rewrite existsb_exists. split.
  - intros (s & Hin & Hs). apply list_elem_of_In, list_elem_of_lookup in Hin
      as [i Hi]. eauto.
  - intros (i & s & Hi & Hs). exists s. split; [|done].
    apply list_elem_of_In, list_elem_of_lookup. eauto.
Qed.

Lemma spot_at_Some l f i s :
  spot_at l f i = Some s <->
  exists fl, floors l !! f = Some fl /\ Floor.spots fl !! i = Some s.
Proof.
  unfold spot_at. destruct (floors l !! f) as [fl|]; split.
  - eauto.
  - by intros (fl' & [= <-] & H).
  - done.
  - by intros (fl' & [=] & _).
Qed.

Lemma lot_inv_start numFloors spotsPerFloor :
  int_range numFloors -> int_range spotsPerFloor ->
  lot_inv (new numFloors spotsPerFloor).
Proof.
  unfold int_range, INT_MAX. intros HF HS.
  assert (Hfloor : forall n f,
    floors (new numFloors spotsPerFloor) !! n = Some f ->
    f = Floor.new (Z.of_nat n) spotsPerFloor).
  { intros n f. unfold new. simpl. rewrite list_lookup_fmap.
    destruct (seqZ 0 numFloors !! n) as [z|] eqn:E; [|done].
    apply lookup_seqZ in E as [-> _]. simpl. intros [= <-]. f_equal; lia. }
  assert (Hspot : forall f i s,
    spot_at (new numFloors spotsPerFloor) f i = Some s ->
    s = ParkingSpot.new (Z.of_nat f) (Z.of_nat i)).
  { intros f i s (fl & Hfl & Hs)%spot_at_Some.
    apply Hfloor in Hfl as ->. unfold Floor.new in Hs. simpl in Hs.
    rewrite list_lookup_fmap in Hs.
    destruct (seqZ 0 spotsPerFloor !! i) as [z|] eqn:E; [|done].
    apply lookup_seqZ in E as [-> _]. simpl in Hs. injection Hs as <-.
    f_equal; lia. }
  split.
  - intros n f Hf. apply Hfloor in Hf as Heq. subst f. split.
    + done.
    + intros i s Hs. unfold Floor.new in Hs. simpl in Hs.
      rewrite list_lookup_fmap in Hs.
      destruct (seqZ 0 spotsPerFloor !! i) as [z|] eqn:E; [|done].
      apply lookup_seqZ in E as [-> _]. simpl in Hs. injection Hs as <-.
      simpl. lia.
    + unfold size, Floor.new, INT_MAX. simpl.
      rewrite length_fmap, length_seqZ. lia.
  - unfold size, new, INT_MAX. simpl. rewrite length_fmap, length_seqZ. lia.
  - intros p f i (s & Hs & Hocc & _). apply Hspot in Hs as ->. done.
  - intros p fz I iz H. unfold new in H. simpl in H.
    by rewrite lookup_empty in H.
  - intros p. unfold new. simpl. by rewrite !lookup_empty.
  - intros f i s Hs _. apply Hspot in Hs as ->. done.
  - intros p fz I H. unfold new in H. simpl in H.
    by rewrite lookup_empty in H.
Qed.

(** *** Parking keeps the invariant

    Throughout the section: the plate of [v] is not in the index, floor
    [n] is [f], and the floor accepted the proposal [l], becoming
    [f']. *)

Section Parked.

Variables (w : World) (v : Vehicle) (n : nat) (f f' : Floor.t) (l : list Z).
Hypothesis Hinv : lot_inv (lot w).
Hypothesis Hnew : vehicleLocations (lot w) !! licensePlate v = None.
Hypothesis Hf : floors (lot w) !! n = Some f.
Hypothesis Hpark : Floor.parkVehicle v l f = Done (true, f').

Lemma parked_spot f0 i :
  spot_at (lot (parked_world w v n f' l)) f0 i =
  (fun s => if bool_decide (f0 = n /\ Z.of_nat i ∈ l)
            then taken (licensePlate v) s else s) <$> spot_at (lot w) f0 i.
Proof.
  destruct (Floor_parkVehicle_spec _ _ _ _ _ Hpark) as (_ & _ & Hlook).
  unfold spot_at, parked_world. simpl.
  destruct (decide (f0 = n)) as [-> | Hne].
  - rewrite list_lookup_insert_eq by (by apply lookup_lt_Some in Hf).
    rewrite Hf, Hlook. destruct (Floor.spots f !! i); simpl; [|done].
    f_equal. apply (f_equal (fun b : bool => if b then _ else _)).
    apply bool_decide_ext. tauto.
  - rewrite list_lookup_insert_ne by done.
    destruct (floors (lot w) !! f0) as [fl|]; [|done].
    destruct (Floor.spots fl !! i); simpl; [|done].
    rewrite bool_decide_eq_false_2; [done | tauto].
Qed.

(** Every proposed index was a free spot of floor [n]. *)
Lemma parked_hit i :
  Z.of_nat i ∈ l ->
  exists s, spot_at (lot w) n i = Some s /\ ParkingSpot.isOccupied s = false.
Proof.
  destruct (Floor_parkVehicle_spec _ _ _ _ _ Hpark) as (Hfree & _ & _).
  intros Hi. destruct (Hfree _ Hi) as (j & Hj & Hfr).
  apply Nat2Z.inj in Hj as <-.
  apply free_at_true in Hfr as (s & Hs & Ho).
  exists s. split; [|done]. apply spot_at_Some. eauto.
Qed.

Lemma parked_floors m fm :
  floors (lot (parked_world w v n f' l)) !! m = Some fm -> floor_ok m fm.
Proof.
  destruct (Floor_parkVehicle_spec _ _ _ _ _ Hpark) as (_ & Hnum & Hlook).
  pose proof (inv_floors _ Hinv n f Hf) as [Hfn Hsn Hsz].
  unfold parked_world. simpl.
  destruct (decide (m = n)) as [-> | Hne].
  - rewrite list_lookup_insert_eq by (by apply lookup_lt_Some in Hf).
    intros [= <-]. split.
    + congruence.
    + intros i s. rewrite Hlook.
      destruct (Floor.spots f !! i) as [s0|] eqn:Es0; simpl; [|done].
      intros [= <-]. case_bool_decide; rewrite ?taken_spotNumber; eauto.
    + unfold size in *. by rewrite (lookup_fmap_length _ _ _ Hlook).
  - rewrite list_lookup_insert_ne by done. apply (inv_floors _ Hinv).
Qed.

Lemma parked_occupied q f0 i :
  occupied_by (lot (parked_world w v n f' l)) q f0 i ->
  listed (lot (parked_world w v n f' l)) q f0 i.
Proof.
  destruct (Floor_parkVehicle_spec _ _ _ _ _ Hpark) as (_ & Hnum & _).
  pose proof (ok_floorNumber _ _ (inv_floors _ Hinv n f Hf)) as Hfn.
  intros (s' & Hs' & Hocc & Hplate). rewrite parked_spot in Hs'.
  destruct (spot_at (lot w) f0 i) as [s|] eqn:Es; [|done].
  simpl in Hs'. injection Hs' as <-.
  case_bool_decide as Hdec.
  - destruct Hdec as [-> Hi]. destruct (parked_hit i Hi) as (s0 & Hs0 & Ho).
    assert (s0 = s) as -> by congruence.
    rewrite (taken_free _ _ Ho) in Hplate. simpl in Hplate. subst q.
    exists l. unfold parked_world. simpl.
    rewrite lookup_insert_eq. split; [congruence | done].
  - destruct (inv_occupied _ Hinv q f0 i) as (I & HI & Hin).
    { exists s. done. }
    exists I. split; [|done]. unfold parked_world. simpl.
    rewrite lookup_insert_ne; [done | congruence].
Qed.

Lemma parked_listed q fz I iz :
  vehicleLocations (lot (parked_world w v n f' l)) !! q = Some (fz, I) ->
  iz ∈ I ->
  exists f0 i, fz = Z.of_nat f0 /\ iz = Z.of_nat i /\
               occupied_by (lot (parked_world w v n f' l)) q f0 i.
Proof.
  destruct (Floor_parkVehicle_spec _ _ _ _ _ Hpark) as (Hfree & Hnum & _).
  pose proof (ok_floorNumber _ _ (inv_floors _ Hinv n f Hf)) as Hfn.
  unfold parked_world at 1. simpl.
  destruct (decide (q = licensePlate v)) as [-> | Hne].
  - rewrite lookup_insert_eq. intros [= <- <-] Hin.
    destruct (Hfree _ Hin) as (j & -> & _).
    destruct (parked_hit j Hin) as (s & Hs & Ho).
    exists n, j. split; [congruence|]. split; [done|].
    exists (taken (licensePlate v) s). rewrite parked_spot, Hs. simpl.
    rewrite bool_decide_eq_true_2 by done.
    rewrite (taken_free _ _ Ho). done.
  - rewrite lookup_insert_ne by done. intros Hq Hin.
    destruct (inv_listed _ Hinv q fz I iz Hq Hin)
      as (f0 & i & -> & -> & s & Hs & Ho & Hp).
    exists f0, i. split; [done|]. split; [done|].
    exists s. rewrite parked_spot, Hs. simpl.
    case_bool_decide; rewrite ?(taken_occupied _ _ Ho); done.
Qed.

Lemma parked_blank f0 i s' :
  spot_at (lot (parked_world w v n f' l)) f0 i = Some s' ->
  ParkingSpot.isOccupied s' = false ->
  ParkingSpot.parkedVehicle s' = EmptyString.
Proof.
  rewrite parked_spot.
  destruct (spot_at (lot w) f0 i) as [s|] eqn:Es; [|done].
  simpl. intros [= <-]. case_bool_decide as Hdec.
  - destruct Hdec as [-> Hi]. destruct (parked_hit i Hi) as (s0 & Hs0 & Ho).
    assert (s0 = s) as -> by congruence.
    rewrite (taken_free _ _ Ho). done.
  - apply (inv_blank _ Hinv f0 i s Es).
Qed.

Lemma lot_inv_parked : lot_inv (lot (parked_world w v n f' l)).
Proof.
  split.
  - apply parked_floors.
  - unfold parked_world, size. simpl. rewrite length_insert.
    apply (inv_floor_count _ Hinv).
  - apply parked_occupied.
  - apply parked_listed.
  - intros q. unfold parked_world. simpl.
    destruct (decide (q = licensePlate v)) as [-> | Hne].
    + by rewrite !lookup_insert_eq.
    + rewrite !lookup_insert_ne by done. apply (inv_records _ Hinv).
  - apply parked_blank.
  - destruct (Floor_parkVehicle_spec _ _ _ _ _ Hpark) as (_ & Hnum & _).
    pose proof (ok_floorNumber _ _ (inv_floors _ Hinv n f Hf)) as Hfn.
    intros q fz I. unfold parked_world. simpl. rewrite length_insert.
    destruct (decide (q = licensePlate v)) as [-> | Hne].
    + rewrite lookup_insert_eq. intros [= <- <-].
      exists n. split; [congruence|]. by apply lookup_lt_Some in Hf.
    + rewrite lookup_insert_ne by done. apply (inv_entry_floor _ Hinv).
Qed.

End Parked.

Lemma lot_inv_parkVehicle v w b w' :
  lot_inv (lot w) -> parkVehicle v w = Done (b, w') -> lot_inv (lot w').
Proof.
  intros Hinv Hrun.
  destruct (parkVehicle_cases _ _ _ _ Hrun)
    as [(_ & _ & ->) | [(_ & _ & -> & _) |
        (Hnew & _ & n & f & l & f' & _ & Hf & _ & _ & Hpark & ->)]]; try done.
  by eapply lot_inv_parked.
Qed.

(** The ways a call of [removeVehicle] can end. *)
Lemma removeVehicle_cases plate w b w' :
  removeVehicle plate w = Done (b, w') ->
  (vehicleLocations (lot w) !! plate = None /\ b = false /\
   w' = printed w (NotFound plate)) \/
  (exists floorNumber I f,
     vehicleLocations (lot w) !! plate = Some (floorNumber, I) /\
     at_index (floors (lot w)) (to_size_t floorNumber) = Done f /\
     ((existsb (held_by plate) (Floor.spots f) = false /\ b = false /\ w' = w) \/
      (existsb (held_by plate) (Floor.spots f) = true /\ b = true /\
       w' = removed_world w plate floorNumber
              (Floor.mk (Floor.floorNumber f)
                        (vacated plate <$> Floor.spots f))))).
Proof.
  destruct (vehicleLocations (lot w) !! plate) as [[floorNumber I]|] eqn:Eloc.
  - destruct (at_index (floors (lot w)) (to_size_t floorNumber))
      as [f| |] eqn:Ef.
    + rewrite (removeVehicle_present _ _ _ _ _ Eloc Ef).
      destruct (existsb _ _) eqn:Eheld; intros [= <- <-]; right;
        exists floorNumber, I, f; repeat split; tauto.
    + unfold removeVehicle, lot_bind at 1, find_location. rewrite Eloc.
      cbv beta iota zeta. unfold lot_bind at 1, call_floor. cbn [fst].
      by rewrite Ef.
    + unfold removeVehicle, lot_bind at 1, find_location. rewrite Eloc.
      cbv beta iota zeta. unfold lot_bind at 1, call_floor. cbn [fst].
      by rewrite Ef.
  - rewrite (removeVehicle_absent _ _ Eloc). intros [= <- <-]. left. done.
Qed.

(** *** Removing keeps the invariant

    Throughout the section: the index lists [plate] on the floor
    recorded as [fz], that floor is [f], and [f] holds at least one spot
    of [plate]. *)

Section Removed.

Variables (w : World) (plate : string) (fz : Z) (I : list Z) (f : Floor.t).
Hypothesis Hinv : lot_inv (lot w).
Hypothesis Hloc : vehicleLocations (lot w) !! plate = Some (fz, I).
Hypothesis Hat : at_index (floors (lot w)) (to_size_t fz) = Done f.
Hypothesis Hheld : existsb (held_by plate) (Floor.spots f) = true.

Let n : nat := Z.to_nat (to_size_t fz).
Let w' : World :=
  removed_world w plate fz
    (Floor.mk (Floor.floorNumber f) (vacated plate <$> Floor.spots f)).

Lemma removed_floor : floors (lot w) !! n = Some f.
Proof. by apply at_index_Done in Hat as [_ Hf]. Qed.

(** The recorded floor number is the position of the floor. *)
Lemma removed_floorNumber : fz = Z.of_nat n.
Proof.
  pose proof removed_floor as Hf.
  apply existsb_held_by in Hheld as (i & s & Hs & Hh).
  apply held_by_true in Hh as [Ho Hp].
  destruct (inv_occupied _ Hinv plate n i) as (I' & HI' & _).
  { exists s. split; [|done]. apply spot_at_Some. eauto. }
  congruence.
Qed.

Lemma removed_spot f0 i :
  spot_at (lot w') f0 i =
  (fun s => if bool_decide (f0 = n) then vacated plate s else s)
    <$> spot_at (lot w) f0 i.
Proof.
  pose proof removed_floor as Hf.
  unfold spot_at, w', removed_world. simpl. fold n.
  destruct (decide (f0 = n)) as [-> | Hne].
  - rewrite list_lookup_insert_eq by (by apply lookup_lt_Some in Hf).
    rewrite Hf. simpl. rewrite list_lookup_fmap.
    destruct (Floor.spots f !! i); simpl; [|done].
    by rewrite bool_decide_eq_true_2.
  - rewrite list_lookup_insert_ne by done.
    destruct (floors (lot w) !! f0) as [fl|]; [|done].
    destruct (Floor.spots fl !! i); simpl; [|done].
    by rewrite bool_decide_eq_false_2.
Qed.

Lemma removed_floors m fm : floors (lot w') !! m = Some fm -> floor_ok m fm.
Proof.
  pose proof removed_floor as Hf.
  pose proof (inv_floors _ Hinv n f Hf) as [Hfn Hsn Hsz].
  unfold w', removed_world. simpl. fold n.
  destruct (decide (m = n)) as [-> | Hne].
  - rewrite list_lookup_insert_eq by (by apply lookup_lt_Some in Hf).
    intros [= <-]. split; simpl.
    + done.
    + intros i s. rewrite list_lookup_fmap.
      destruct (Floor.spots f !! i) as [s0|] eqn:Es0; simpl; [|done].
      intros [= <-]. rewrite vacated_spotNumber. eauto.
    + unfold size in *. by rewrite length_fmap.
  - rewrite list_lookup_insert_ne by done. apply (inv_floors _ Hinv).
Qed.

Lemma removed_occupied q f0 i :
  occupied_by (lot w') q f0 i -> listed (lot w') q f0 i.
Proof.
  intros (s' & Hs' & Hocc & Hplate). rewrite removed_spot in Hs'.
  destruct (spot_at (lot w) f0 i) as [s|] eqn:Es; [|done].
  simpl in Hs'. injection Hs' as <-.
  assert (Hkeep : ParkingSpot.isOccupied s = true /\
                  ParkingSpot.parkedVehicle s = q /\
                  (f0 = n -> q <> plate)).
  { case_bool_decide as Hdec.
    - destruct (held_by plate s) eqn:Eh.
      + rewrite (vacated_held_free _ _ Eh) in Hocc. done.
      + rewrite (vacated_not_held _ _ Eh) in Hocc, Hplate.
        repeat split; try done. intros _ ->.
        assert (held_by plate s = true) by by apply held_by_true.
        congruence.
    - done. }
  destruct Hkeep as (Ho & Hp & Hq).
  destruct (inv_occupied _ Hinv q f0 i) as (I' & HI' & Hin).
  { exists s. done. }
  exists I'. split; [|done]. unfold w', removed_world. simpl.
  rewrite lookup_delete_ne; [done|].
  intros <-. rewrite Hloc in HI'. injection HI' as Hfz' _.
  apply Hq; [|done]. pose proof removed_floorNumber. lia.
Qed.

Lemma removed_listed q fz' I' iz :
  vehicleLocations (lot w') !! q = Some (fz', I') -> iz ∈ I' ->
  exists f0 i, fz' = Z.of_nat f0 /\ iz = Z.of_nat i /\
               occupied_by (lot w') q f0 i.
Proof.
  unfold w' at 1, removed_world at 1. simpl.
  destruct (decide (q = plate)) as [-> | Hne].
  - by rewrite lookup_delete_eq.
  - rewrite lookup_delete_ne by done. intros Hq Hin.
    destruct (inv_listed _ Hinv q fz' I' iz Hq Hin)
      as (f0 & i & -> & -> & s & Hs & Ho & Hp).
    exists f0, i. split; [done|]. split; [done|].
    exists s. rewrite removed_spot, Hs. simpl.
    rewrite vacated_not_held.
    + by case_bool_decide.
    + destruct (held_by plate s) eqn:Eh; [|done].
      apply held_by_true in Eh as [_ Eh]. congruence.
Qed.

Lemma removed_blank f0 i s' :
  spot_at (lot w') f0 i = Some s' ->
  ParkingSpot.isOccupied s' = false ->
  ParkingSpot.parkedVehicle s' = EmptyString.
Proof.
  rewrite removed_spot.
  destruct (spot_at (lot w) f0 i) as [s|] eqn:Es; [|done].
  simpl. intros [= <-]. case_bool_decide as Hdec.
  - destruct (held_by plate s) eqn:Eh.
    + rewrite (vacated_held_free _ _ Eh). done.
    + rewrite (vacated_not_held _ _ Eh). apply (inv_blank _ Hinv f0 i s Es).
  - apply (inv_blank _ Hinv f0 i s Es).
Qed.

Lemma lot_inv_removed : lot_inv (lot w').
Proof.
  split.
  - apply removed_floors.
  - unfold w', removed_world, size. simpl. rewrite length_insert.
    apply (inv_floor_count _ Hinv).
  - apply removed_occupied.
  - apply removed_listed.
  - intros q. unfold w', removed_world. simpl.
    destruct (decide (q = plate)) as [-> | Hne].
    + by rewrite !lookup_delete_eq.
    + rewrite !lookup_delete_ne by done. apply (inv_records _ Hinv).
  - apply removed_blank.
  - intros q fz' I'. unfold w', removed_world. simpl. rewrite length_insert.
    destruct (decide (q = plate)) as [-> | Hne].
    + by rewrite lookup_delete_eq.
    + rewrite lookup_delete_ne by done. apply (inv_entry_floor _ Hinv).
Qed.

End Removed.

Lemma lot_inv_removeVehicle plate w b w' :
  lot_inv (lot w) -> removeVehicle plate w = Done (b, w') -> lot_inv (lot w').
Proof.
  intros Hinv Hrun.
  destruct (removeVehicle_cases _ _ _ _ Hrun)
    as [(_ & _ & ->) | (fz & I & f & Hloc & Hat & [(_ & _ & ->) | (Hheld & _ & ->)])];
    try done.
  by eapply lot_inv_removed.
Qed.

Lemma getAvailableSpotsPerFloor_frame w r w' :
  getAvailableSpotsPerFloor w = Done (r, w') -> w' = w.
Proof.
  unfold getAvailableSpotsPerFloor, lot_bind, floor_count.
  apply collect_counts_frame.
Qed.

Lemma isFull_frame w b w' : isFull w = Done (b, w') -> w' = w.
Proof. unfold isFull, lot_bind, floor_count. apply all_full_frame. Qed.

Lemma findVehicle_frame plate w u w' :
  findVehicle plate w = Done (u, w') -> lot w' = lot w.
Proof.
  unfold findVehicle, lot_bind, find_location, print.
  destruct (vehicleLocations (lot w) !! plate); by intros [= _ <-].
Qed.

Lemma reachable_inv w : reachable w -> lot_inv (lot w).
Proof.
  induction 1 as [nf ns Hnf Hns | w v b w' _ IH Hrun | w p b w' _ IH Hrun
                  | w r w' _ IH Hrun | w b w' _ IH Hrun | w p u w' _ IH Hrun].
  - by apply lot_inv_start.
  - by eapply lot_inv_parkVehicle.
  - by eapply lot_inv_removeVehicle.
  - by rewrite (getAvailableSpotsPerFloor_frame _ _ _ Hrun).
  - by rewrite (isFull_frame _ _ _ Hrun).
  - by rewrite (findVehicle_frame _ _ _ _ Hrun).
Qed.

(** ** Counting free spots *)

Lemma collect_counts_spec k a acc w :
  (a + k <= length (floors (lot w)))%nat ->
  collect_counts (seq a k) acc w =
  Done (acc ++ (Floor.availableSpotsCount <$> take k (drop a (floors (lot w)))), w).
Proof.
  revert a acc. induction k as [|k IH]; intros a acc Hk; simpl.
  - by rewrite app_nil_r.
  - unfold lot_bind at 1. rewrite read_floor_nat.
    destruct (lookup_lt_is_Some_2 (floors (lot w)) a) as [f Hf]; [lia|].
    rewrite Hf. simpl. rewrite IH by lia.
    rewrite (drop_S _ _ _ Hf). simpl. by rewrite <- app_assoc.
Qed.

Lemma getAvailableSpotsPerFloor_spec w :
  getAvailableSpotsPerFloor w = Done (free_counts (lot w), w).
Proof.
  unfold getAvailableSpotsPerFloor, lot_bind, floor_count.
  rewrite collect_counts_spec by lia.
  by rewrite drop_0, firstn_all.
Qed.

Lemma fits_run_from spots k j :
  fits spots k j = true ->
  forall idx, idx ∈ run_from j k ->
    exists j', idx = Z.of_nat j' /\ free_at spots j' = true.
Proof.
  unfold fits, run_from. rewrite forallb_forall. intros H idx Hin.
  apply list_elem_of_fmap in Hin as (j' & -> & Hin).
  apply elem_of_seq in Hin. exists j'. split; [done|].
  specialize (H (j' - j)%nat).
  replace (j + (j' - j))%nat with j' in H by lia.
  apply H, in_seq. lia.
Qed.

Lemma run_from_nonempty j k : (1 <= k)%nat -> run_from j k <> [].
Proof. unfold run_from. destruct k; [lia | done]. Qed.

Lemma required_pos v : (1 <= required v)%nat.
Proof. destruct (required_cases v) as [(_ & _ & ->) | (_ & _ & ->)]; lia. Qed.

(** On a well-numbered floor the scan passes over exactly the floors
    where the vehicle does not fit. *)
Lemma passed_over_no_fit n f v :
  floor_ok n f -> passed_over v f -> no_fit (Floor.spots f) (required v).
Proof.
  intros Hok [Hnil | (l & Hl & Hrefused)].
  - destruct (findAvailableSpots_spec _ _ _ _ Hok Hnil)
      as [[_ H] | (j & Hj & _)]; [done|].
    symmetry in Hj. by apply run_from_nonempty in Hj; [|apply required_pos].
  - destruct (findAvailableSpots_spec _ _ _ _ Hok Hl)
      as [[_ H] | (j & -> & Hfit & _)]; [done|].
    destruct (Floor_parkVehicle_accepts v (run_from j (required v)) n f Hok)
      as (f' & Hf').
    { by apply fits_run_from. }
    congruence.
Qed.

(** ** Placement *)

(** C1.  In every reachable world a successful [parkVehicle] places the
    vehicle by first fit, floors ascending and indices ascending: the
    chosen floor [n] is the lowest floor that has the required number of
    consecutive free spots, the chosen start [j] is the smallest such
    start on that floor, and the spots recorded in [vehicleLocations]
    and printed are [j] alone, or [j, j+1] for a truck. *)
Theorem parkVehicle_first_fit w v w' :
  reachable w ->
  parkVehicle v w = Done (true, w') ->
  exists n f j,
    floors (lot w) !! n = Some f /\
    first_fit (Floor.spots f) (required v) j /\
    (forall m f0, (m < n)%nat -> floors (lot w) !! m = Some f0 ->
                  no_fit (Floor.spots f0) (required v)) /\
    vehicleLocations (lot w') !! licensePlate v =
      Some (Z.of_nat n, run_from j (required v)) /\
    cout w' =
      cout w ++ [Parked (licensePlate v) (Z.of_nat n) (run_from j (required v))] /\
    (type v = Truck ->
     run_from j (required v) = [Z.of_nat j; Z.of_nat j + 1]) /\
    (type v <> Truck -> run_from j (required v) = [Z.of_nat j]).
Proof.
  intros Hreach Hrun. apply reachable_inv in Hreach as Hinv.
  destruct (parkVehicle_cases _ _ _ _ Hrun)
    as [(_ & [=] & _) | [(_ & [=] & _) |
        (_ & _ & n & f & l & f' & Hbefore & Hf & Hfind & Hne & Hpark & ->)]].
  pose proof (inv_floors _ Hinv n f Hf) as Hok.
  destruct (findAvailableSpots_spec _ _ _ _ Hok Hfind)
    as [[-> _] | (j & -> & Hfirst)]; [done|].
  destruct (Floor_parkVehicle_spec _ _ _ _ _ Hpark) as (_ & Hnum & _).
  rewrite (ok_floorNumber _ _ Hok) in Hnum.
  exists n, f, j. unfold parked_world. simpl. rewrite Hnum.
  repeat split; try done.
  - apply Hfirst.
  - apply Hfirst.
  - intros m f0 Hm Hf0. eapply passed_over_no_fit; [|by eapply Hbefore].
    by apply (inv_floors _ Hinv).
  - by rewrite lookup_insert_eq.
  - destruct (required_cases v) as [(_ & _ & ->) | (Hnt & _ & _)]; [|done].
    intros _. unfold run_from. simpl. do 2 f_equal. lia.
  - destruct (required_cases v) as [(Ht & _ & _) | (_ & _ & ->)]; done.
Qed.

Lemma parkVehicle_first_fit_witness :
  reachable lot_1x4_C1 /\
  parkVehicle truck_T1 lot_1x4_C1 = Done (true, lot_1x4_C1_T1) /\
  exists n f j,
    floors (lot lot_1x4_C1) !! n = Some f /\
    first_fit (Floor.spots f) (required truck_T1) j /\
    (forall m f0, (m < n)%nat -> floors (lot lot_1x4_C1) !! m = Some f0 ->
                  no_fit (Floor.spots f0) (required truck_T1)) /\
    vehicleLocations (lot lot_1x4_C1_T1) !! licensePlate truck_T1 =
      Some (Z.of_nat n, run_from j (required truck_T1)) /\
    cout lot_1x4_C1_T1 =
      cout lot_1x4_C1 ++
      [Parked (licensePlate truck_T1) (Z.of_nat n)
              (run_from j (required truck_T1))] /\
    (type truck_T1 = Truck ->
     run_from j (required truck_T1) = [Z.of_nat j; Z.of_nat j + 1]) /\
    (type truck_T1 <> Truck -> run_from j (required truck_T1) = [Z.of_nat j]).
Proof.
  assert (Hreach : reachable lot_1x4_C1).
  { apply (reach_parkVehicle (start 1 4) car_C1 true).
    - apply reach_start; unfold int_range, INT_MAX; lia.
    - vm_compute. reflexivity. }
  assert (Hrun : parkVehicle truck_T1 lot_1x4_C1 = Done (true, lot_1x4_C1_T1)).
  { vm_compute. reflexivity. }
  split; [exact Hreach|]. split; [exact Hrun|].
  exact (parkVehicle_first_fit lot_1x4_C1 truck_T1 lot_1x4_C1_T1 Hreach Hrun).
Defined.

(** The placement of the example: T1 goes to spots 1 and 2 of floor 0. *)
Example parkVehicle_truck_example :
  vehicleLocations (lot lot_1x4_C1_T1) !! "T1" = Some (0, [1; 2]).
Proof. vm_compute. reflexivity. Qed.

(** ** The index and the spots agree *)

(** C2.  In every reachable world (a constructed lot after any number of
    completed calls) a spot is occupied by plate [p] exactly when
    [vehicleLocations] has an entry for [p] that names the spot's floor
    and lists the spot's index; and every floor and index an entry lists
    is a spot of the lot occupied by [p]. *)
Theorem occupied_iff_listed w :
  reachable w ->
  (forall p f i, occupied_by (lot w) p f i <-> listed (lot w) p f i) /\
  (forall p floorNumber I idx,
     vehicleLocations (lot w) !! p = Some (floorNumber, I) -> idx ∈ I ->
     exists f i, floorNumber = Z.of_nat f /\ idx = Z.of_nat i /\
                 occupied_by (lot w) p f i).
Proof.
  intros Hreach. apply reachable_inv in Hreach as Hinv. split.
  - intros p f i. split; [apply (inv_occupied _ Hinv)|].
    intros (I & HI & Hin).
    destruct (inv_listed _ Hinv p _ I _ HI Hin) as (f' & i' & Hf & Hi & Hocc).
    apply Nat2Z.inj in Hf as <-. apply Nat2Z.inj in Hi as <-. done.
  - apply (inv_listed _ Hinv).
Qed.

Lemma occupied_iff_listed_witness :
  reachable lot_1x4_C1_T1 /\
  ((forall p f i,
      occupied_by (lot lot_1x4_C1_T1) p f i <-> listed (lot lot_1x4_C1_T1) p f i) /\
   (forall p floorNumber I idx,
      vehicleLocations (lot lot_1x4_C1_T1) !! p = Some (floorNumber, I) ->
      idx ∈ I ->
      exists f i, floorNumber = Z.of_nat f /\ idx = Z.of_nat i /\
                  occupied_by (lot lot_1x4_C1_T1) p f i)).
Proof.
  assert (Hreach : reachable lot_1x4_C1_T1).
  { apply (reach_parkVehicle lot_1x4_C1 truck_T1 true).
    - apply (reach_parkVehicle (start 1 4) car_C1 true).
      + apply reach_start; unfold int_range, INT_MAX; lia.
      + vm_compute. reflexivity.
    - vm_compute. reflexivity. }
  split; [exact Hreach|].
  exact (occupied_iff_listed lot_1x4_C1_T1 Hreach).
Defined.

(** ** A failed park changes nothing *)

Lemma verify_total spots l : exists b, Floor.verify spots l = Done b.
Proof.
  induction l as [|i rest IH]; simpl; [by eexists|].
  destruct (i <? 0) eqn:E0; [by eexists|]. apply Z.ltb_ge in E0.
  destruct (i >=? to_int (size spots)) eqn:E1; [by eexists|].
  rewrite Z.geb_leb in E1. apply Z.leb_gt in E1.
  assert (Hbound : to_int (size spots) < 2 ^ 31).
  { unfold to_int. pose proof (Z.mod_pos_bound (size spots + 2 ^ 31) (2 ^ 32)). lia. }
  assert (Hle : to_int (size spots) <= size spots)
    by (apply to_int_le; unfold size; lia).
  rewrite to_size_t_small by lia.
  destruct (lookup_lt_is_Some_2 spots (Z.to_nat i)) as [s Hs].
  { unfold size in *. lia. }
  assert (Hat : at_index spots i = Done s) by (by apply at_index_Done).
  rewrite Hat. simpl. destruct (ParkingSpot.isOccupied s); [by eexists | done].
Qed.

(** A proposal with an index that is not a free spot of the floor is
    refused and the floor stays as it is. *)
Lemma Floor_parkVehicle_refuses v l f idx :
  idx ∈ l ->
  (forall j, idx = Z.of_nat j -> free_at (Floor.spots f) j = false) ->
  Floor.parkVehicle v l f = Done (false, f).
Proof.
  intros Hin Hbad. unfold Floor.parkVehicle.
  destruct (verify_total (Floor.spots f) l) as [[|] Hv]; rewrite Hv; [|done].
  destruct (verify_Done_true _ _ Hv idx Hin) as (j & Hj & Hfree & _).
  rewrite (Hbad j Hj) in Hfree. done.
Qed.

(** C3.  When [parkVehicle] returns false, for a plate already parked or
    for want of room, the lot is as before: the same spots, the same
    [vehicleLocations] and [vehiclesMap]; only the line reporting the
    failure was printed.  Underneath, the floor's [parkVehicle] checks
    every proposed index before it assigns any: a proposal with an index
    out of range or occupied is refused with the floor unchanged, and no
    refusal ever changes the floor. *)
Theorem failed_park_changes_nothing w v w' :
  parkVehicle v w = Done (false, w') ->
  lot w' = lot w /\
  (cout w' = cout w ++ [AlreadyParked (licensePlate v)] \/
   cout w' = cout w ++ [NoSuitableSpot (licensePlate v)]) /\
  (forall l f idx,
     idx ∈ l ->
     (forall j, idx = Z.of_nat j -> free_at (Floor.spots f) j = false) ->
     Floor.parkVehicle v l f = Done (false, f)) /\
  (forall l f f', Floor.parkVehicle v l f = Done (false, f') -> f' = f).
Proof.
  intros Hrun.
  destruct (parkVehicle_cases _ _ _ _ Hrun)
    as [(_ & _ & ->) | [(_ & _ & -> & _) | (_ & [=] & _)]].
  - repeat split; try done.
    + by left.
    + intros l f idx. apply Floor_parkVehicle_refuses.
    + intros l f f'. apply Floor_parkVehicle_refused.
  - repeat split; try done.
    + by right.
    + intros l f idx. apply Floor_parkVehicle_refuses.
    + intros l f f'. apply Floor_parkVehicle_refused.
Qed.

Lemma failed_park_changes_nothing_witness :
  parkVehicle truck_T1 lot_1x2_X =
    Done (false, printed lot_1x2_X (NoSuitableSpot "T1")) /\
  lot (printed lot_1x2_X (NoSuitableSpot "T1")) = lot lot_1x2_X /\
  (cout (printed lot_1x2_X (NoSuitableSpot "T1")) =
     cout lot_1x2_X ++ [AlreadyParked (licensePlate truck_T1)] \/
   cout (printed lot_1x2_X (NoSuitableSpot "T1")) =
     cout lot_1x2_X ++ [NoSuitableSpot (licensePlate truck_T1)]) /\
  (forall l f idx,
     idx ∈ l ->
     (forall j, idx = Z.of_nat j -> free_at (Floor.spots f) j = false) ->
     Floor.parkVehicle truck_T1 l f = Done (false, f)) /\
  (forall l f f', Floor.parkVehicle truck_T1 l f = Done (false, f') -> f' = f).
Proof.
  assert (Hrun : parkVehicle truck_T1 lot_1x2_X =
                 Done (false, printed lot_1x2_X (NoSuitableSpot "T1"))).
  { vm_compute. reflexivity. }
  split; [exact Hrun|].
  exact (failed_park_changes_nothing lot_1x2_X truck_T1 _ Hrun).
Defined.

(** ** The search on a floor without spots *)

(** C4.  On a floor built with no spots the search for a truck's two
    adjacent spots does not return an empty list: its loop bound
    [spots.size() - 1] wraps, the loop is entered and [spots[0]] is read
    outside the vector.  The same happens to [parkVehicle] on a lot
    built with zero spots per floor. *)
Theorem findAvailableSpots_empty_floor_truck :
  (forall floorNumber numSpots plate,
     numSpots <= 0 ->
     Floor.findAvailableSpots (mkVehicle plate Truck)
       (Floor.new floorNumber numSpots) = Undefined) /\
  Floor.spots (Floor.new 0 0) = [] /\
  parkVehicle truck_T1 (start 1 0) = Undefined.
Proof.
  split; [|split; reflexivity].
  intros floorNumber numSpots plate Hn.
  apply findAvailableSpots_truck_empty; [|done].
  unfold Floor.new. simpl. unfold seqZ.
  replace (Z.to_nat numSpots) with 0%nat by lia. done.
Qed.

Lemma findAvailableSpots_empty_floor_truck_witness :
  0 <= 0 /\
  Floor.findAvailableSpots (mkVehicle "T1" Truck) (Floor.new 0 0) = Undefined.
Proof.
  split; [lia|].
  apply (proj1 findAvailableSpots_empty_floor_truck 0 0 "T1"). lia.
Defined.

(** Everywhere else the search keeps its promise: on a floor with at
    least one spot, or for a bike or a car, it ends with a list, and the
    list is empty exactly when the vehicle does not fit. *)
Lemma findAvailableSpots_elsewhere n f v :
  floor_ok n f ->
  (Floor.spots f <> [] \/ type v <> Truck) ->
  exists l, Floor.findAvailableSpots v f = Done l /\
    ((l = [] /\ no_fit (Floor.spots f) (required v)) \/
     (exists j, l = run_from j (required v) /\
                first_fit (Floor.spots f) (required v) j)).
Proof.
  intros Hok Hor.
  destruct (findAvailableSpots_total f v (ok_size _ _ Hok) Hor) as [l Hl].
  exists l. split; [done|]. by eapply findAvailableSpots_spec.
Qed.

(** ** Removing a plate whose spots are gone *)

(** C5, as the code has it.  When [removeVehicle] finds the plate in
    [vehicleLocations] but the recorded floor holds no spot of that
    plate, it returns false, prints nothing and leaves the world as it
    was, index entries included. *)
Theorem removeVehicle_nothing_released w plate floorNumber I f :
  vehicleLocations (lot w) !! plate = Some (floorNumber, I) ->
  at_index (floors (lot w)) (to_size_t floorNumber) = Done f ->
  (Floor.removeVehicle plate f).1 = false ->
  removeVehicle plate w = Done (false, w).
Proof.
  intros Hloc Hat Hrel.
  rewrite (removeVehicle_present _ _ _ _ _ Hloc Hat).
  rewrite Floor_removeVehicle_spec in Hrel. simpl in Hrel. by rewrite Hrel.
Qed.

Lemma removeVehicle_nothing_released_witness :
  vehicleLocations (lot out_of_step) !! "X" = Some (0, [0]) /\
  at_index (floors (lot out_of_step)) (to_size_t 0) = Done (Floor.new 0 1) /\
  (Floor.removeVehicle "X" (Floor.new 0 1)).1 = false /\
  removeVehicle "X" out_of_step = Done (false, out_of_step).
Proof.
  assert (H1 : vehicleLocations (lot out_of_step) !! "X" = Some (0, [0]))
    by (vm_compute; reflexivity).
  assert (H2 : at_index (floors (lot out_of_step)) (to_size_t 0)
               = Done (Floor.new 0 1)) by (vm_compute; reflexivity).
  assert (H3 : (Floor.removeVehicle "X" (Floor.new 0 1)).1 = false)
    by (vm_compute; reflexivity).
  split; [exact H1|]. split; [exact H2|]. split; [exact H3|].
  exact (removeVehicle_nothing_released out_of_step "X" 0 [0] _ H1 H2 H3).
Defined.

(** C5, as stated, fails.  In [out_of_step] the plate X is listed on
    floor 0 and the floor releases nothing for it; [removeVehicle]
    then returns false, the value it also returns for a plate that was
    never parked, and adds no line to [cout]: the two failures differ
    only in that the absent plate gets the line [NotFound]. *)
Lemma removeVehicle_no_distinct_error :
  vehicleLocations (lot out_of_step) !! "X" = Some (0, [0]) /\
  (Floor.removeVehicle "X" (Floor.new 0 1)).1 = false /\
  removeVehicle "X" out_of_step = Done (false, out_of_step) /\
  removeVehicle "X" (start 1 1) =
    Done (false, printed (start 1 1) (NotFound "X")).
Proof. repeat split; vm_compute; reflexivity. Qed.

(** ** A plate that is already parked *)

(** C6.  [parkVehicle] ends with the report [AlreadyParked] (and false)
    exactly when the plate has an entry in [vehicleLocations]; the lot is
    then as before, so [getAvailableSpotsPerFloor] gives the same counts
    before and after. *)
Theorem duplicate_plate_rejected w v :
  (is_Some (vehicleLocations (lot w) !! licensePlate v) <->
   exists w', parkVehicle v w = Done (false, w') /\
              cout w' = cout w ++ [AlreadyParked (licensePlate v)]) /\
  (forall w',
     parkVehicle v w = Done (false, w') ->
     cout w' = cout w ++ [AlreadyParked (licensePlate v)] ->
     lot w' = lot w /\
     exists counts,
       getAvailableSpotsPerFloor w = Done (counts, w) /\
       getAvailableSpotsPerFloor w' = Done (counts, w')).
Proof.
  split.
  - split.
    + intros [loc Hloc]. eexists. split.
      * by apply (parkVehicle_duplicate _ _ loc).
      * done.
    + intros (w' & Hrun & Hout).
      destruct (parkVehicle_cases _ _ _ _ Hrun)
        as [(H & _) | [(_ & _ & -> & _) | (_ & [=] & _)]]; [done|].
      simpl in Hout. apply app_inv_head in Hout. done.
  - intros w' Hrun Hout.
    destruct (parkVehicle_cases _ _ _ _ Hrun)
      as [(_ & _ & ->) | [(_ & _ & -> & _) | (_ & [=] & _)]].
    + split; [done|]. exists (free_counts (lot w)).
      by rewrite !getAvailableSpotsPerFloor_spec.
    + simpl in Hout. apply app_inv_head in Hout. done.
Qed.

(** The scenario of the specification: on a lot of one floor and two
    spots, after car X took spot 0, bike X is turned away as already
    parked and one spot is still free. *)
Lemma duplicate_plate_rejected_witness :
  vehicleLocations (lot lot_1x2_X) !! "X" = Some (0, [0]) /\
  exists w',
    parkVehicle bike_X lot_1x2_X = Done (false, w') /\
    cout w' = cout lot_1x2_X ++ [AlreadyParked "X"] /\
    lot w' = lot lot_1x2_X /\
    getAvailableSpotsPerFloor w' = Done ([1], w').
Proof.
  assert (Hloc : vehicleLocations (lot lot_1x2_X) !! "X" = Some (0, [0]))
    by (vm_compute; reflexivity).
  split; [exact Hloc|].
  destruct (duplicate_plate_rejected lot_1x2_X bike_X) as [Hiff Hsame].
  destruct (proj1 Hiff (ex_intro _ _ Hloc)) as (w' & Hrun & Hout).
  destruct (Hsame w' Hrun Hout) as (Hlot & counts & Hbefore & Hafter).
  exists w'. split; [exact Hrun|]. split; [exact Hout|]. split; [exact Hlot|].
  assert (Hcounts : getAvailableSpotsPerFloor lot_1x2_X = Done ([1], lot_1x2_X))
    by (vm_compute; reflexivity).
  rewrite Hcounts in Hbefore. injection Hbefore as <-. exact Hafter.
Defined.

(** ** Releasing a plate on one floor *)

Lemma held_by_vacated plate s : held_by plate (vacated plate s) = false.
Proof.
  destruct (held_by plate s) eqn:E.
  - by rewrite (vacated_held_free _ _ E).
  - by rewrite (vacated_not_held _ _ E).
Qed.

Lemma held_count_zero plate spots :
  held_count plate spots = 0 <-> existsb (held_by plate) spots = false.
Proof.
  unfold held_count. induction spots as [|s rest IH]; simpl; [done|].
  rewrite filter_cons. destruct (held_by plate s) eqn:E; simpl.
  - split; [lia | done].
  - exact IH.
Qed.

Lemma held_count_nonneg plate spots : 0 <= held_count plate spots.
Proof. unfold held_count. lia. Qed.

Lemma held_count_vacated plate spots :
  held_count plate (vacated plate <$> spots) = 0.
Proof.
  apply held_count_zero. induction spots as [|s rest IH]; [done|].
  rewrite fmap_cons. simpl. by rewrite held_by_vacated, IH.
Qed.

(** C7, as the code has it.  The floor's [removeVehicle] frees every
    spot that holds the plate (occupancy off, plate text cleared),
    leaves every other spot as it is, and returns a flag: true when at
    least one spot was freed, false exactly when the plate held no spot
    of the floor. *)
Theorem Floor_removeVehicle_releases plate f :
  Floor.floorNumber (Floor.removeVehicle plate f).2 = Floor.floorNumber f /\
  length (Floor.spots (Floor.removeVehicle plate f).2) = length (Floor.spots f) /\
  (forall i s, Floor.spots f !! i = Some s ->
     exists s', Floor.spots (Floor.removeVehicle plate f).2 !! i = Some s' /\
       (held_by plate s = true ->
        ParkingSpot.isOccupied s' = false /\
        ParkingSpot.parkedVehicle s' = EmptyString /\
        ParkingSpot.spotNumber s' = ParkingSpot.spotNumber s /\
        ParkingSpot.floorNumber s' = ParkingSpot.floorNumber s) /\
       (held_by plate s = false -> s' = s)) /\
  held_count plate (Floor.spots (Floor.removeVehicle plate f).2) = 0 /\
  ((Floor.removeVehicle plate f).1 = true <->
   0 < held_count plate (Floor.spots f)) /\
  ((Floor.removeVehicle plate f).1 = false <->
   held_count plate (Floor.spots f) = 0).
Proof.
  rewrite Floor_removeVehicle_spec. simpl.
  split; [done|]. split; [by rewrite length_fmap|]. split; [|split; [|split]].
  - intros i s Hs. exists (vacated plate s). rewrite list_lookup_fmap, Hs.
    split; [done|]. split.
    + intros Hh. by rewrite (vacated_held_free _ _ Hh).
    + apply vacated_not_held.
  - apply held_count_vacated.
  - pose proof (held_count_nonneg plate (Floor.spots f)) as Hge.
    pose proof (held_count_zero plate (Floor.spots f)) as Hz.
    destruct (existsb (held_by plate) (Floor.spots f)); split; try done.
    + intros _. destruct Hz as [Hz _].
      destruct (decide (held_count plate (Floor.spots f) = 0)) as [H0|]; [|lia].
      by specialize (Hz H0).
    + intros Hpos. destruct Hz as [_ Hz]. specialize (Hz eq_refl). lia.
  - symmetry. apply held_count_zero.
Qed.

Lemma Floor_removeVehicle_releases_witness :
  0 < held_count "T1" (Floor.spots floor_with_truck) /\
  (Floor.removeVehicle "T1" floor_with_truck).1 = true.
Proof.
  assert (Hpos : 0 < held_count "T1" (Floor.spots floor_with_truck))
    by (vm_compute; reflexivity).
  split; [exact Hpos|].
  destruct (Floor_removeVehicle_releases "T1" floor_with_truck)
    as (_ & _ & _ & _ & Hflag & _).
  exact (proj2 Hflag Hpos).
Defined.

(** C7, as stated, fails.  Truck T1 holds both spots of
    [floor_with_truck]; the floor's [removeVehicle] frees the two of
    them, yet what it returns is the flag true, which read as a number
    is 1 and not 2. *)
Lemma Floor_removeVehicle_returns_flag :
  held_count "T1" (Floor.spots floor_with_truck) = 2 /\
  held_count "T1" (Floor.spots (Floor.removeVehicle "T1" floor_with_truck).2) = 0 /\
  (Floor.removeVehicle "T1" floor_with_truck).1 = true /\
  Z.b2z (Floor.removeVehicle "T1" floor_with_truck).1 <>
    held_count "T1" (Floor.spots floor_with_truck).
Proof. repeat split; vm_compute; done. Qed.

(** ** Park, then remove *)

Lemma spots_restored plate (l : list Z) (spots spots' : list ParkingSpot.t) :
  (forall idx, idx ∈ l ->
     exists j s, idx = Z.of_nat j /\ spots !! j = Some s /\
                 ParkingSpot.isOccupied s = false /\
                 ParkingSpot.parkedVehicle s = EmptyString) ->
  (forall i s, spots !! i = Some s -> held_by plate s = false) ->
  (forall i, spots' !! i =
     (fun s => if bool_decide (Z.of_nat i ∈ l) then taken plate s else s)
       <$> spots !! i) ->
  vacated plate <$> spots' = spots.
Proof.
  intros Hfree Hnone Hlook. apply list_eq. intros i.
  rewrite list_lookup_fmap, Hlook.
  destruct (spots !! i) as [s|] eqn:Es; simpl; [|done]. f_equal.
  case_bool_decide as Hin.
  - destruct (Hfree _ Hin) as (j & s0 & Hj & Hs0 & Ho & Hp).
    apply Nat2Z.inj in Hj as <-. assert (s0 = s) as -> by congruence.
    rewrite (taken_free _ _ Ho). rewrite vacated_held_free.
    + destruct s; simpl in *. by subst.
    + apply held_by_true. done.
  - apply vacated_not_held. eauto.
Qed.

(** C8.  In every reachable world, when [parkVehicle] has parked a
    vehicle, [removeVehicle] of its plate succeeds and brings the lot
    back to what it was before the park: the same spots, the same
    [vehicleLocations] and [vehiclesMap], hence the same free count on
    every floor. *)
Theorem park_then_remove_restores w v w1 :
  reachable w ->
  parkVehicle v w = Done (true, w1) ->
  exists w2,
    removeVehicle (licensePlate v) w1 = Done (true, w2) /\
    lot w2 = lot w /\
    exists counts,
      getAvailableSpotsPerFloor w = Done (counts, w) /\
      getAvailableSpotsPerFloor w2 = Done (counts, w2).
Proof.
  intros Hreach Hrun. apply reachable_inv in Hreach as Hinv.
  destruct (parkVehicle_cases _ _ _ _ Hrun)
    as [(_ & [=] & _) | [(_ & [=] & _) |
        (Hnew & _ & n & f & l & f' & _ & Hf & _ & Hne & Hpark & ->)]].
  destruct (Floor_parkVehicle_spec _ _ _ _ _ Hpark) as (Hfree & Hnum & Hlook).
  pose proof (inv_floors _ Hinv n f Hf) as Hok.
  pose proof (ok_floorNumber _ _ Hok) as Hfn.
  pose proof (lookup_lt_Some _ _ _ Hf) as Hlt.
  pose proof (inv_floor_count _ Hinv) as Hcount. unfold size in Hcount.
  assert (Hsz : to_size_t (Floor.floorNumber f') = Z.of_nat n).
  { rewrite Hnum, Hfn. apply to_size_t_nat. lia. }
  assert (Hloc : vehicleLocations (lot (parked_world w v n f' l))
                   !! licensePlate v = Some (Floor.floorNumber f', l)).
  { unfold parked_world. simpl. by rewrite lookup_insert_eq. }
  assert (Hat : at_index (floors (lot (parked_world w v n f' l)))
                  (to_size_t (Floor.floorNumber f')) = Done f').
  { rewrite Hsz, at_index_nat. unfold parked_world. simpl.
    by rewrite list_lookup_insert_eq. }
  assert (Hheld : existsb (held_by (licensePlate v)) (Floor.spots f') = true).
  { destruct l as [|idx l]; [done|].
    destruct (Hfree idx) as (j & -> & Hj); [by left|].
    apply free_at_true in Hj as (s & Hs & Ho).
    apply existsb_held_by. exists j, (taken (licensePlate v) s). split.
    - rewrite Hlook, Hs. simpl. rewrite bool_decide_eq_true_2; [done | by left].
    - rewrite (taken_free _ _ Ho). apply held_by_true. done. }
  assert (Hspots : vacated (licensePlate v) <$> Floor.spots f' = Floor.spots f).
  { apply (spots_restored _ l _ _); [| |exact Hlook].
    - intros idx Hin. destruct (Hfree idx Hin) as (j & -> & Hj).
      apply free_at_true in Hj as (s & Hs & Ho).
      exists j, s. repeat split; try done.
      apply (inv_blank _ Hinv n j s); [|done]. apply spot_at_Some. eauto.
    - intros i s Hs. destruct (held_by (licensePlate v) s) eqn:Eh; [|done].
      apply held_by_true in Eh as [Ho Hp].
      destruct (inv_occupied _ Hinv (licensePlate v) n i) as (I & HI & _).
      + exists s. split; [|done]. apply spot_at_Some. eauto.
      + congruence. }
  assert (Hback : lot (removed_world (parked_world w v n f' l) (licensePlate v)
                    (Floor.floorNumber f')
                    (Floor.mk (Floor.floorNumber f')
                       (vacated (licensePlate v) <$> Floor.spots f')))
                  = lot w).
  { unfold removed_world, parked_world. simpl.
    rewrite Hsz, Nat2Z.id, Hspots, Hnum, floor_eta.
    rewrite list_insert_insert_eq, (list_insert_id _ _ _ Hf).
    rewrite (delete_insert_id _ _ _ Hnew).
    rewrite delete_insert_id by (by apply (inv_records _ Hinv)).
    apply lot_eta. }
  eexists. split.
  - rewrite (removeVehicle_present _ _ _ _ _ Hloc Hat), Hheld. done.
  - split; [exact Hback|].
    exists (free_counts (lot w)).
    rewrite !getAvailableSpotsPerFloor_spec, Hback. done.
Qed.

Lemma park_then_remove_restores_witness :
  reachable lot_1x4_C1 /\
  parkVehicle truck_T1 lot_1x4_C1 = Done (true, lot_1x4_C1_T1) /\
  exists w2,
    removeVehicle (licensePlate truck_T1) lot_1x4_C1_T1 = Done (true, w2) /\
    lot w2 = lot lot_1x4_C1 /\
    exists counts,
      getAvailableSpotsPerFloor lot_1x4_C1 = Done (counts, lot_1x4_C1) /\
      getAvailableSpotsPerFloor w2 = Done (counts, w2).
Proof.
  assert (Hreach : reachable lot_1x4_C1).
  { apply (reach_parkVehicle (start 1 4) car_C1 true).
    - apply reach_start; unfold int_range, INT_MAX; lia.
    - vm_compute. reflexivity. }
  assert (Hrun : parkVehicle truck_T1 lot_1x4_C1 = Done (true, lot_1x4_C1_T1)).
  { vm_compute. reflexivity. }
  split; [exact Hreach|]. split; [exact Hrun|].
  exact (park_then_remove_restores lot_1x4_C1 truck_T1 lot_1x4_C1_T1 Hreach Hrun).
Defined.

(** ** The queries *)

(** C10.  [getAvailableSpotsPerFloor] and [isFull] end in the world they
    started in, and [findVehicle] only adds its line to [cout]: after
    any of the three the lot has the same spots, the same
    [vehicleLocations] and the same [vehiclesMap]. *)
Theorem queries_leave_lot_unchanged w plate :
  (exists counts, getAvailableSpotsPerFloor w = Done (counts, w)) /\
  (exists full, isFull w = Done (full, w)) /\
  (exists w', findVehicle plate w = Done (tt, w') /\ lot w' = lot w).
Proof.
  split; [|split].
  - exists (free_counts (lot w)). apply getAvailableSpotsPerFloor_spec.
  - unfold isFull, lot_bind, floor_count. apply all_full_total. lia.
  - unfold findVehicle, lot_bind, find_location, print.
    destruct (vehicleLocations (lot w) !! plate); by eexists.
Qed.

(** ** Two parks of one plate, one after the other *)

(** Once a plate is parked, the next [parkVehicle] with that plate is
    turned away as already parked, whatever the vehicle type. *)
Lemma parkVehicle_again v v' w w1 :
  parkVehicle v w = Done (true, w1) ->
  licensePlate v' = licensePlate v ->
  parkVehicle v' w1 =
    Done (false, printed w1 (AlreadyParked (licensePlate v'))).
Proof.
  intros Hrun Hplate.
  destruct (parkVehicle_cases _ _ _ _ Hrun)
    as [(_ & [=] & _) | [(_ & [=] & _) |
        (_ & _ & n & f & l & f' & _ & _ & _ & _ & _ & ->)]].
  apply (parkVehicle_duplicate _ _ (Floor.floorNumber f', l)).
  unfold parked_world. simpl. by rewrite Hplate, lookup_insert_eq.
Qed.

(** When the lot has no room, two parks of one plate are both turned
    away for want of a spot and neither is parked. *)
Example parkVehicle_twice_no_room :
  parkVehicle car_X lot_1x1_C1 =
    Done (false, printed lot_1x1_C1 (NoSuitableSpot "X")) /\
  parkVehicle bike_X (printed lot_1x1_C1 (NoSuitableSpot "X")) =
    Done (false, printed (printed lot_1x1_C1 (NoSuitableSpot "X"))
                         (NoSuitableSpot "X")).
Proof. split; vm_compute; reflexivity. Qed.

(** ** The calls end *)

(** The scan ends without a fault as long as no truck meets a floor
    without spots. *)
Lemma park_scan_total v k a w :
  lot_inv (lot w) ->
  (a + k <= length (floors (lot w)))%nat ->
  (forall m f, floors (lot w) !! m = Some f ->
               Floor.spots f <> [] \/ type v <> Truck) ->
  exists r w', park_scan v (seq a k) w = Done (r, w').
Proof.
  intros Hinv. revert a. induction k as [|k IH]; intros a Hk Hsafe; simpl.
  - by do 2 eexists.
  - unfold lot_bind at 1. rewrite read_floor_nat.
    destruct (lookup_lt_is_Some_2 (floors (lot w)) a) as [f Hf]; [lia|].
    rewrite Hf. pose proof (inv_floors _ Hinv a f Hf) as Hok.
    destruct (findAvailableSpots_elsewhere a f v Hok (Hsafe a f Hf))
      as (l & Hl & Hcases).
    rewrite Hl. simpl.
    destruct Hcases as [[-> _] | (j & -> & Hfit & _)].
    + apply IH; [lia | done].
    + destruct (run_from j (required v)) as [|x l] eqn:El.
      { by apply run_from_nonempty in El; [|apply required_pos]. }
      rewrite <- El in *.
      destruct (Floor_parkVehicle_accepts v (run_from j (required v)) a f Hok)
        as (f' & Hf').
      { by apply fits_run_from. }
      unfold lot_bind at 1. rewrite call_floor_nat, Hf, Hf'. simpl.
      unfold lot_bind at 1. rewrite read_floor_nat. simpl.
      rewrite list_lookup_insert_eq by (by apply lookup_lt_Some in Hf).
      simpl. by do 2 eexists.
Qed.

(** In a reachable world [parkVehicle] returns, unless a truck is
    presented to a lot that has a floor without spots. *)
Lemma parkVehicle_total w v :
  reachable w ->
  (forall m f, floors (lot w) !! m = Some f ->
               Floor.spots f <> [] \/ type v <> Truck) ->
  exists b w', parkVehicle v w = Done (b, w').
Proof.
  intros Hreach Hsafe. apply reachable_inv in Hreach as Hinv.
  unfold parkVehicle, lot_bind at 1, find_location.
  destruct (vehicleLocations (lot w) !! licensePlate v).
  - by do 2 eexists.
  - unfold lot_bind at 1, floor_count. unfold lot_bind at 1.
    destruct (park_scan_total v (length (floors (lot w))) 0 w Hinv)
      as (r & w' & ->); [lia | done |].
    destruct r; by do 2 eexists.
Qed.

(** In a reachable world [removeVehicle] always returns. *)
Lemma removeVehicle_total w plate :
  reachable w -> exists b w', removeVehicle plate w = Done (b, w').
Proof.
  intros Hreach. apply reachable_inv in Hreach as Hinv.
  destruct (vehicleLocations (lot w) !! plate) as [[fz I]|] eqn:Eloc.
  - destruct (inv_entry_floor _ Hinv _ _ _ Eloc) as (n & -> & Hn).
    destruct (lookup_lt_is_Some_2 _ _ Hn) as [f Hf].
    pose proof (inv_floor_count _ Hinv) as Hcount. unfold size in Hcount.
    assert (Hat : at_index (floors (lot w)) (to_size_t (Z.of_nat n)) = Done f).
    { rewrite to_size_t_nat by lia. by rewrite at_index_nat, Hf. }
    rewrite (removeVehicle_present _ _ _ _ _ Eloc Hat).
    destruct (existsb _ _); by do 2 eexists.
  - rewrite (removeVehicle_absent _ _ Eloc). by do 2 eexists.
Qed.

(** * Further properties *)

(** ** Counting the free spots of a floor *)

Lemma count_free_spec spots count :
  Floor.count_free spots count = count + free_number spots.
Proof.
  unfold free_number. revert count.
  induction spots as [|s rest IH]; intros count; simpl; [lia|].
  rewrite IH, filter_cons.
  destruct (ParkingSpot.isOccupied s); simpl; lia.
Qed.

Lemma availableSpotsCount_spec f :
  Floor.availableSpotsCount f = free_number (Floor.spots f).
Proof. unfold Floor.availableSpotsCount. by rewrite count_free_spec. Qed.

Lemma free_occupied_number spots :
  free_number spots + occupied_number spots = size spots.
Proof.
  unfold free_number, occupied_number, size.
  induction spots as [|s rest IH]; simpl; [done|].
  rewrite !filter_cons. destruct (ParkingSpot.isOccupied s); simpl; lia.
Qed.

Lemma free_number_zero spots :
  free_number spots = 0 <-> forall j, free_at spots j = false.
Proof.
  unfold free_number. induction spots as [|s rest IH]; simpl.
  - split; [|done]. intros _ j. unfold free_at. by rewrite lookup_nil.
  - rewrite filter_cons. destruct (ParkingSpot.isOccupied s) eqn:E; simpl.
    + rewrite IH. split.
      * intros H [|j]; unfold free_at; simpl; [by rewrite E | apply H].
      * intros H j. apply (H (S j)).
    + split; [lia|]. intros H. specialize (H 0%nat).
      unfold free_at in H. simpl in H. by rewrite E in H.
Qed.

(** X1.  [availableSpotsCount] returns the number of free spots of the
    floor: it lies between 0 and the size of the floor, together with
    the number of occupied spots it makes up the size, and it is 0
    exactly when no spot of the floor is free. *)
Theorem availableSpotsCount_counts_free f :
  Floor.availableSpotsCount f = free_number (Floor.spots f) /\
  0 <= Floor.availableSpotsCount f <= size (Floor.spots f) /\
  Floor.availableSpotsCount f + occupied_number (Floor.spots f)
    = size (Floor.spots f) /\
  (Floor.availableSpotsCount f = 0 <->
   forall j, free_at (Floor.spots f) j = false).
Proof.
  rewrite availableSpotsCount_spec.
  pose proof (free_occupied_number (Floor.spots f)) as Hsum.
  split; [done|]. split; [|split; [done|apply free_number_zero]].
  unfold free_number, occupied_number in *. lia.
Qed.

Lemma availableSpotsCount_counts_free_witness :
  0 <= Floor.availableSpotsCount floor_with_truck
    <= size (Floor.spots floor_with_truck).
Proof. exact (proj1 (proj2 (availableSpotsCount_counts_free floor_with_truck))). Defined.

(** ** [isFull] *)

Lemma all_full_spec k a w :
  (a + k <= length (floors (lot w)))%nat ->
  all_full (seq a k) w =
  Done (forallb (fun f => negb (Floor.availableSpotsCount f >? 0))
          (take k (drop a (floors (lot w)))), w).
Proof.
  revert a. induction k as [|k IH]; intros a Hk; simpl.
  - done.
  - unfold lot_bind at 1. rewrite read_floor_nat.
    destruct (lookup_lt_is_Some_2 (floors (lot w)) a) as [f Hf]; [lia|].
    rewrite Hf. simpl. rewrite (drop_S _ _ _ Hf). simpl.
    destruct (Floor.availableSpotsCount f >? 0); simpl; [done|].
    apply IH. lia.
Qed.

Lemma isFull_spec w :
  isFull w =
  Done (forallb (fun f => negb (Floor.availableSpotsCount f >? 0))
          (floors (lot w)), w).
Proof.
  unfold isFull, lot_bind, floor_count.
  rewrite all_full_spec by lia. by rewrite drop_0, firstn_all.
Qed.

Lemma free_number_nonneg spots : 0 <= free_number spots.
Proof. unfold free_number. lia. Qed.

Lemma isFull_true_iff w :
  forallb (fun f => negb (Floor.availableSpotsCount f >? 0)) (floors (lot w))
    = true <->
  forall n f j, floors (lot w) !! n = Some f -> free_at (Floor.spots f) j = false.
Proof.
  rewrite forallb_forall. split.
  - intros H n f j Hf.
    assert (Hin : In f (floors (lot w))).
    { apply list_elem_of_In, list_elem_of_lookup. eauto. }
    specialize (H f Hin). apply negb_true_iff in H.
    rewrite availableSpotsCount_spec in H.
    pose proof (free_number_nonneg (Floor.spots f)).
    apply free_number_zero. rewrite Z.gtb_ltb in H. apply Z.ltb_ge in H. lia.
  - intros H f Hin.
    apply list_elem_of_In, list_elem_of_lookup in Hin as [n Hf].
    apply negb_true_iff. rewrite availableSpotsCount_spec.
    assert (H0 : free_number (Floor.spots f) = 0).
    { apply free_number_zero. intros j. by apply (H n). }
    rewrite H0. done.
Qed.

Lemma isFull_iff_no_free_spot_aux w :
  exists full,
    isFull w = Done (full, w) /\
    (full = true <-> forall c, c ∈ free_counts (lot w) -> c = 0).
Proof.
  eexists. split; [apply isFull_spec|].
  rewrite isFull_true_iff. unfold free_counts. split.
  - intros H c Hc. apply list_elem_of_fmap in Hc as (f & -> & Hin).
    apply list_elem_of_lookup in Hin as [n Hf].
    rewrite availableSpotsCount_spec. apply free_number_zero.
    intros j. by apply (H n).
  - intros H n f j Hf. apply free_number_zero.
    rewrite <- availableSpotsCount_spec. apply H.
    apply list_elem_of_fmap. exists f. split; [done|].
    apply list_elem_of_lookup. eauto.
Qed.

(** X2.  [isFull] returns without changing the world, and it returns
    true exactly when no spot on any floor is free, which is exactly when
    every count reported by [getAvailableSpotsPerFloor] is 0.  A lot
    without floors is full. *)
Theorem isFull_iff_no_free_spot w :
  exists full counts,
    isFull w = Done (full, w) /\
    getAvailableSpotsPerFloor w = Done (counts, w) /\
    (full = true <->
     forall n f j, floors (lot w) !! n = Some f ->
                   free_at (Floor.spots f) j = false) /\
    (full = true <-> forall c, c ∈ counts -> c = 0).
Proof.
  eexists _, _. split; [apply isFull_spec|].
  split; [apply getAvailableSpotsPerFloor_spec|].
  split; [apply isFull_true_iff|].
  rewrite isFull_true_iff. unfold free_counts. split.
  - intros H c Hc. apply list_elem_of_fmap in Hc as (f & -> & Hin).
    apply list_elem_of_lookup in Hin as [n Hf].
    rewrite availableSpotsCount_spec. apply free_number_zero.
    intros j. by apply (H n).
  - intros H n f j Hf. apply free_number_zero.
    rewrite <- availableSpotsCount_spec. apply H.
    apply list_elem_of_fmap. exists f. split; [done|].
    apply list_elem_of_lookup. eauto.
Qed.

Lemma isFull_iff_no_free_spot_witness :
  exists full counts,
    isFull lot_1x1_C1 = Done (full, lot_1x1_C1) /\
    getAvailableSpotsPerFloor lot_1x1_C1 = Done (counts, lot_1x1_C1) /\
    (full = true <->
     forall n f j, floors (lot lot_1x1_C1) !! n = Some f ->
                   free_at (Floor.spots f) j = false) /\
    (full = true <-> forall c, c ∈ counts -> c = 0).
Proof. exact (isFull_iff_no_free_spot lot_1x1_C1). Defined.

(** ** A lot as constructed *)

Lemma free_number_new floorNumber (l : list Z) :
  free_number (ParkingSpot.new floorNumber <$> l) = Z.of_nat (length l).
Proof.
  unfold free_number. induction l as [|z l IH]; [done|].
  rewrite fmap_cons, filter_cons. simpl. lia.
Qed.

Lemma fmap_constant {A B} (g : A -> B) (c : B) (l : list A) :
  (forall x, g x = c) -> g <$> l = replicate (length l) c.
Proof.
  intros H. induction l as [|x l IH]; [done|].
  by rewrite fmap_cons, H, IH.
Qed.

Lemma free_counts_new numFloors spotsPerFloor :
  free_counts (new numFloors spotsPerFloor) =
  replicate (Z.to_nat numFloors) (Z.of_nat (Z.to_nat spotsPerFloor)).
Proof.
  unfold free_counts, new. simpl. rewrite <- list_fmap_compose.
  rewrite (fmap_constant _ (Z.of_nat (Z.to_nat spotsPerFloor))).
  - by rewrite length_seqZ.
  - intros i. simpl. rewrite availableSpotsCount_spec. unfold Floor.new. simpl.
    by rewrite free_number_new, length_seqZ.
Qed.

(** X3.  A lot constructed with [numFloors] and [spotsPerFloor] has
    [numFloors] floors (none when the number is negative), all spots
    free: [getAvailableSpotsPerFloor] reports [spotsPerFloor] on every
    floor (0 when the number is negative).  Nothing is parked: the index
    is empty.  [isFull] is true from the start exactly when one of the
    two numbers is 0 or negative. *)
Theorem new_lot_is_empty numFloors spotsPerFloor :
  getAvailableSpotsPerFloor (start numFloors spotsPerFloor) =
    Done (replicate (Z.to_nat numFloors) (Z.max 0 spotsPerFloor),
          start numFloors spotsPerFloor) /\
  vehicleLocations (lot (start numFloors spotsPerFloor)) = ∅ /\
  vehiclesMap (lot (start numFloors spotsPerFloor)) = ∅ /\
  exists full,
    isFull (start numFloors spotsPerFloor) =
      Done (full, start numFloors spotsPerFloor) /\
    (full = true <-> numFloors <= 0 \/ spotsPerFloor <= 0).
Proof.
  split; [|split; [done|split; [done|]]].
  - rewrite getAvailableSpotsPerFloor_spec. simpl.
    rewrite free_counts_new.
    by replace (Z.of_nat (Z.to_nat spotsPerFloor)) with (Z.max 0 spotsPerFloor)
      by lia.
  - destruct (isFull_iff_no_free_spot_aux (start numFloors spotsPerFloor))
      as (full & Hfull & Hiff).
    exists full. split; [done|]. rewrite Hiff. simpl.
    rewrite free_counts_new. split.
    + intros H.
      destruct (decide (numFloors <= 0)) as [|Hn]; [by left|]. right.
      assert (Hin : Z.of_nat (Z.to_nat spotsPerFloor) ∈
                    replicate (Z.to_nat numFloors)
                      (Z.of_nat (Z.to_nat spotsPerFloor))).
      { apply elem_of_replicate. split; [done | lia]. }
      specialize (H _ Hin). lia.
    + intros Hor c Hc. apply elem_of_replicate in Hc as [-> Hn].
      destruct Hor; lia.
Qed.

Lemma new_lot_is_empty_witness :
  getAvailableSpotsPerFloor (start 2 3) = Done ([3; 3], start 2 3).
Proof. exact (proj1 (new_lot_is_empty 2 3)). Defined.

(** ** The shape of the index *)

Lemma index_shape_parked w v n f l f' :
  lot_inv (lot w) -> index_shape (lot w) ->
  floors (lot w) !! n = Some f ->
  Floor.findAvailableSpots v f = Done l -> l <> [] ->
  index_shape (lot (parked_world w v n f' l)).
Proof.
  intros Hinv Hshape Hf Hfind Hne p fz I. unfold parked_world. simpl.
  destruct (decide (p = licensePlate v)) as [-> | Hp].
  - rewrite !lookup_insert_eq. intros [= <- <-].
    destruct (findAvailableSpots_spec _ _ _ _ (inv_floors _ Hinv n f Hf) Hfind)
      as [[-> _] | (j & -> & _)]; [done|].
    by exists v, j.
  - rewrite !lookup_insert_ne by done. apply Hshape.
Qed.

Lemma index_shape_removed w plate fz f' :
  index_shape (lot w) -> index_shape (lot (removed_world w plate fz f')).
Proof.
  intros Hshape p fz' I. unfold removed_world. simpl.
  destruct (decide (p = plate)) as [-> | Hp].
  - by rewrite lookup_delete_eq.
  - rewrite !lookup_delete_ne by done. apply Hshape.
Qed.

Lemma reachable_index_shape w : reachable w -> index_shape (lot w).
Proof.
  induction 1 as [nf ns Hnf Hns | w v b w' Hreach IH Hrun
                  | w p b w' Hreach IH Hrun
                  | w r w' _ IH Hrun | w b w' _ IH Hrun | w p u w' _ IH Hrun].
  - intros p fz I H. unfold start, new in H. simpl in H.
    by rewrite lookup_empty in H.
  - destruct (parkVehicle_cases _ _ _ _ Hrun)
      as [(_ & _ & ->) | [(_ & _ & -> & _) |
          (_ & _ & n & f & l & f' & _ & Hf & Hfind & Hne & _ & ->)]]; try done.
    eapply index_shape_parked; eauto. by apply reachable_inv.
  - destruct (removeVehicle_cases _ _ _ _ Hrun)
      as [(_ & _ & ->) | (fz & I & f & _ & _ & [(_ & _ & ->) | (_ & _ & ->)])];
      try done.
    by apply index_shape_removed.
  - by rewrite (getAvailableSpotsPerFloor_frame _ _ _ Hrun).
  - by rewrite (isFull_frame _ _ _ Hrun).
  - by rewrite (findVehicle_frame _ _ _ _ Hrun).
Qed.

Lemma run_from_cases v j :
  (type v = Truck /\ run_from j (required v) = [Z.of_nat j; Z.of_nat j + 1]) \/
  (type v <> Truck /\ run_from j (required v) = [Z.of_nat j]).
Proof.
  destruct (required_cases v) as [(Ht & _ & ->) | (Ht & _ & ->)].
  - left. split; [done|]. unfold run_from. simpl. do 2 f_equal. lia.
  - right. done.
Qed.

(** X4.  In every reachable world the two maps of the lot have the same
    plates; the record filed under a plate carries that plate; and the
    entry of a plate lists one index for a bike or a car and two
    consecutive indices for a truck. *)
Theorem index_entries_well_formed w :
  reachable w ->
  (forall p, vehicleLocations (lot w) !! p = None <->
             vehiclesMap (lot w) !! p = None) /\
  (forall p floorNumber I,
     vehicleLocations (lot w) !! p = Some (floorNumber, I) ->
     exists vehicle j,
       vehiclesMap (lot w) !! p = Some vehicle /\
       licensePlate vehicle = p /\
       Z.of_nat (length I) = getRequiredSpots vehicle /\
       (type vehicle = Truck -> I = [Z.of_nat j; Z.of_nat j + 1]) /\
       (type vehicle <> Truck -> I = [Z.of_nat j])).
Proof.
  intros Hreach. split; [apply (inv_records _ (reachable_inv _ Hreach))|].
  intros p fz I Hloc.
  destruct (reachable_index_shape _ Hreach _ _ _ Hloc)
    as (vehicle & j & Hrec & Hplate & ->).
  exists vehicle, j. repeat split; try done.
  - destruct (run_from_cases vehicle j) as [(Ht & ->) | (Ht & ->)];
      destruct (required_cases vehicle) as [(Ht' & -> & _) | (Ht' & -> & _)];
      done.
  - intros Ht. by destruct (run_from_cases vehicle j) as [(_ & ->) | (? & _)].
  - intros Ht. by destruct (run_from_cases vehicle j) as [(? & _) | (_ & ->)].
Qed.

Lemma index_entries_well_formed_witness :
  reachable lot_1x4_C1_T1 /\
  exists vehicle j,
    vehiclesMap (lot lot_1x4_C1_T1) !! "T1" = Some vehicle /\
    licensePlate vehicle = "T1" /\
    Z.of_nat (length [1; 2]) = getRequiredSpots vehicle /\
    (type vehicle = Truck -> [1; 2] = [Z.of_nat j; Z.of_nat j + 1]) /\
    (type vehicle <> Truck -> [1; 2] = [Z.of_nat j]).
Proof.
  assert (Hreach : reachable lot_1x4_C1_T1).
  { apply (reach_parkVehicle lot_1x4_C1 truck_T1 true).
    - apply (reach_parkVehicle (start 1 4) car_C1 true).
      + apply reach_start; unfold int_range, INT_MAX; lia.
      + vm_compute. reflexivity.
    - vm_compute. reflexivity. }
  split; [exact Hreach|].
  apply (proj2 (index_entries_well_formed lot_1x4_C1_T1 Hreach) "T1" 0 [1; 2]).
  vm_compute. reflexivity.
Defined.

(** X5.  In every reachable world no spot is listed for two plates: two
    entries of the index that name the same floor and list the same
    index belong to the same plate. *)
Theorem no_spot_listed_twice w p q f i :
  reachable w ->
  listed (lot w) p f i -> listed (lot w) q f i -> p = q.
Proof.
  intros Hreach (I & HI & Hin) (J & HJ & Hjn).
  apply reachable_inv in Hreach as Hinv.
  destruct (inv_listed _ Hinv p _ I _ HI Hin)
    as (f1 & i1 & Hf1 & Hi1 & s1 & Hs1 & _ & Hp1).
  destruct (inv_listed _ Hinv q _ J _ HJ Hjn)
    as (f2 & i2 & Hf2 & Hi2 & s2 & Hs2 & _ & Hp2).
  apply Nat2Z.inj in Hf1, Hi1, Hf2, Hi2. subst. congruence.
Qed.

Lemma no_spot_listed_twice_witness :
  reachable lot_1x4_C1_T1 /\
  listed (lot lot_1x4_C1_T1) "T1" 0 1 /\
  "T1" = "T1".
Proof.
  assert (Hreach : reachable lot_1x4_C1_T1).
  { apply (reach_parkVehicle lot_1x4_C1 truck_T1 true).
    - apply (reach_parkVehicle (start 1 4) car_C1 true).
      + apply reach_start; unfold int_range, INT_MAX; lia.
      + vm_compute. reflexivity.
    - vm_compute. reflexivity. }
  assert (Hl : listed (lot lot_1x4_C1_T1) "T1" 0 1).
  { exists [1; 2]. split; [vm_compute; reflexivity|].
    apply elem_of_cons. left. reflexivity. }
  split; [exact Hreach|]. split; [exact Hl|].
  exact (no_spot_listed_twice lot_1x4_C1_T1 "T1" "T1" 0 1 Hreach Hl Hl).
Defined.

(** ** Removing a parked plate *)

(** In a reachable world the floor an entry names holds a spot of the
    plate. *)
Lemma entry_floor_holds w p fz I :
  reachable w ->
  vehicleLocations (lot w) !! p = Some (fz, I) ->
  exists f, at_index (floors (lot w)) (to_size_t fz) = Done f /\
            existsb (held_by p) (Floor.spots f) = true.
Proof.
  intros Hreach Hloc. apply reachable_inv in Hreach as Hinv.
  destruct (reachable_index_shape _ Hreach _ _ _ Hloc)
    as (vehicle & j & _ & _ & ->).
  assert (Hin : Z.of_nat j ∈ run_from j (required vehicle)).
  { unfold run_from. apply list_elem_of_fmap. exists j. split; [done|].
    apply elem_of_seq. pose proof (required_pos vehicle). lia. }
  destruct (inv_listed _ Hinv _ _ _ _ Hloc Hin)
    as (n & i & -> & _ & s & Hs & Ho & Hp).
  apply spot_at_Some in Hs as (f & Hf & Hs).
  pose proof (lookup_lt_Some _ _ _ Hf) as Hlt.
  pose proof (inv_floor_count _ Hinv) as Hcount. unfold size in Hcount.
  exists f. split.
  - rewrite to_size_t_nat by lia. by rewrite at_index_nat, Hf.
  - apply existsb_held_by. exists i, s. split; [done|].
    by apply held_by_true.
Qed.

(** X6.  In every reachable world [removeVehicle] returns true exactly
    when the plate has an entry in the index.  After a true return the
    plate is in neither map, no spot of the lot is occupied by it, and
    the entries of all other plates are as before. *)
Theorem removeVehicle_iff_parked w plate :
  reachable w ->
  (is_Some (vehicleLocations (lot w) !! plate) <->
   exists w', removeVehicle plate w = Done (true, w')) /\
  (forall w', removeVehicle plate w = Done (true, w') ->
     vehicleLocations (lot w') !! plate = None /\
     vehiclesMap (lot w') !! plate = None /\
     (forall f i, ~ occupied_by (lot w') plate f i) /\
     (forall q, q <> plate ->
        vehicleLocations (lot w') !! q = vehicleLocations (lot w) !! q)).
Proof.
  intros Hreach. split.
  - split.
    + intros [[fz I] Hloc].
      destruct (entry_floor_holds _ _ _ _ Hreach Hloc) as (f & Hat & Hheld).
      eexists. rewrite (removeVehicle_present _ _ _ _ _ Hloc Hat), Hheld. done.
    + intros (w' & Hrun).
      destruct (removeVehicle_cases _ _ _ _ Hrun)
        as [(_ & [=] & _) | (fz & I & f & -> & _)]. done.
  - intros w' Hrun.
    pose proof (lot_inv_removeVehicle _ _ _ _ (reachable_inv _ Hreach) Hrun)
      as Hinv'.
    destruct (removeVehicle_cases _ _ _ _ Hrun)
      as [(_ & [=] & _) |
          (fz & I & f & Hloc & Hat & [(_ & [=] & _) | (_ & _ & ->)])].
    assert (Hgone : vehicleLocations
              (lot (removed_world w plate fz
                      (Floor.mk (Floor.floorNumber f)
                         (vacated plate <$> Floor.spots f)))) !! plate = None).
    { unfold removed_world. simpl. apply lookup_delete_eq. }
    split; [exact Hgone|]. split; [|split].
    + unfold removed_world. simpl. apply lookup_delete_eq.
    + intros f0 i Hocc.
      destruct (inv_occupied _ Hinv' _ _ _ Hocc) as (I' & HI' & _).
      rewrite Hgone in HI'. done.
    + intros q Hq. unfold removed_world. simpl. by rewrite lookup_delete_ne.
Qed.

Lemma removeVehicle_iff_parked_witness :
  reachable lot_1x4_C1_T1 /\
  exists w', removeVehicle "C1" lot_1x4_C1_T1 = Done (true, w').
Proof.
  assert (Hreach : reachable lot_1x4_C1_T1).
  { apply (reach_parkVehicle lot_1x4_C1 truck_T1 true).
    - apply (reach_parkVehicle (start 1 4) car_C1 true).
      + apply reach_start; unfold int_range, INT_MAX; lia.
      + vm_compute. reflexivity.
    - vm_compute. reflexivity. }
  split; [exact Hreach|].
  apply (proj1 (proj1 (removeVehicle_iff_parked lot_1x4_C1_T1 "C1" Hreach))).
  exists (0, [0]). vm_compute. reflexivity.
Defined.

(** ** Looking a plate up *)

(** X7.  Whatever the state of the lot, after [parkVehicle] returned
    true [findVehicle] reports for that plate the very floor and spots
    that [parkVehicle] printed, and every other plate is reported as
    before the park. *)
Theorem findVehicle_after_park w v w1 :
  parkVehicle v w = Done (true, w1) ->
  exists floorNumber spotNumbers,
    cout w1 = cout w ++ [Parked (licensePlate v) floorNumber spotNumbers] /\
    spotNumbers <> [] /\
    findVehicle (licensePlate v) w1 =
      Done (tt, printed w1 (Located (licensePlate v) floorNumber spotNumbers)) /\
    (forall q, q <> licensePlate v ->
       vehicleLocations (lot w1) !! q = vehicleLocations (lot w) !! q).
Proof.
  intros Hrun.
  destruct (parkVehicle_cases _ _ _ _ Hrun)
    as [(_ & [=] & _) | [(_ & [=] & _) |
        (_ & _ & n & f & l & f' & _ & _ & _ & Hne & _ & ->)]].
  exists (Floor.floorNumber f'), l. split; [done|]. split; [done|]. split.
  - unfold findVehicle, lot_bind, find_location, parked_world. simpl.
    by rewrite lookup_insert_eq.
  - intros q Hq. unfold parked_world. simpl. by rewrite lookup_insert_ne.
Qed.

Lemma findVehicle_after_park_witness :
  parkVehicle truck_T1 lot_1x4_C1 = Done (true, lot_1x4_C1_T1) /\
  exists floorNumber spotNumbers,
    cout lot_1x4_C1_T1 =
      cout lot_1x4_C1 ++ [Parked (licensePlate truck_T1) floorNumber spotNumbers] /\
    spotNumbers <> [] /\
    findVehicle (licensePlate truck_T1) lot_1x4_C1_T1 =
      Done (tt, printed lot_1x4_C1_T1
                  (Located (licensePlate truck_T1) floorNumber spotNumbers)) /\
    (forall q, q <> licensePlate truck_T1 ->
       vehicleLocations (lot lot_1x4_C1_T1) !! q =
       vehicleLocations (lot lot_1x4_C1) !! q).
Proof.
  assert (Hrun : parkVehicle truck_T1 lot_1x4_C1 = Done (true, lot_1x4_C1_T1)).
  { vm_compute. reflexivity. }
  split; [exact Hrun|].
  exact (findVehicle_after_park lot_1x4_C1 truck_T1 lot_1x4_C1_T1 Hrun).
Defined.

(** X8.  Whatever the state of the lot, after [removeVehicle] returned
    true the plate is unknown to the lot: [findVehicle] reports it as
    not found, a second [removeVehicle] returns false with the same
    report, and a later [parkVehicle] of that plate is not turned away
    as already parked. *)
Theorem plate_unknown_after_remove w plate w1 :
  removeVehicle plate w = Done (true, w1) ->
  findVehicle plate w1 = Done (tt, printed w1 (NotFound plate)) /\
  removeVehicle plate w1 = Done (false, printed w1 (NotFound plate)) /\
  (forall v b w2,
     licensePlate v = plate -> parkVehicle v w1 = Done (b, w2) ->
     cout w2 <> cout w1 ++ [AlreadyParked plate]).
Proof.
  intros Hrun.
  destruct (removeVehicle_cases _ _ _ _ Hrun)
    as [(_ & [=] & _) |
        (fz & I & f & Hloc & Hat & [(_ & [=] & _) | (_ & _ & ->)])].
  assert (Hgone : vehicleLocations
            (lot (removed_world w plate fz
                    (Floor.mk (Floor.floorNumber f)
                       (vacated plate <$> Floor.spots f)))) !! plate = None).
  { unfold removed_world. simpl. apply lookup_delete_eq. }
  split; [|split].
  - unfold findVehicle, lot_bind, find_location. by rewrite Hgone.
  - by apply removeVehicle_absent.
  - intros v b w2 Hv Hpark Hout. subst plate.
    destruct (parkVehicle_cases _ _ _ _ Hpark)
      as [([? H] & _) | [(_ & _ & -> & _) |
          (_ & _ & n & f0 & l & f' & _ & _ & _ & _ & _ & ->)]].
    + rewrite Hgone in H. done.
    + simpl in Hout. apply app_inv_head in Hout. done.
    + simpl in Hout. apply app_inv_head in Hout. done.
Qed.

Lemma plate_unknown_after_remove_witness :
  removeVehicle "T1" lot_1x4_C1_T1 =
    Done (true, world_after (removeVehicle "T1" lot_1x4_C1_T1)) /\
  findVehicle "T1" (world_after (removeVehicle "T1" lot_1x4_C1_T1)) =
    Done (tt, printed (world_after (removeVehicle "T1" lot_1x4_C1_T1))
                (NotFound "T1")).
Proof.
  assert (Hrun : removeVehicle "T1" lot_1x4_C1_T1 =
                 Done (true, world_after (removeVehicle "T1" lot_1x4_C1_T1))).
  { vm_compute. reflexivity. }
  split; [exact Hrun|].
  exact (proj1 (plate_unknown_after_remove lot_1x4_C1_T1 "T1" _ Hrun)).
Defined.

(** ** How the counts move *)

Lemma free_number_insert spots j s s' :
  spots !! j = Some s ->
  free_number (<[j := s']> spots) =
  free_number spots - Z.b2z (negb (ParkingSpot.isOccupied s))
                    + Z.b2z (negb (ParkingSpot.isOccupied s')).
Proof.
  unfold free_number. revert j.
  induction spots as [|x rest IH]; intros [|j]; simpl; try done.
  - intros [= ->]. rewrite !filter_cons.
    destruct (ParkingSpot.isOccupied s), (ParkingSpot.isOccupied s');
      simpl; lia.
  - intros Hj. rewrite !filter_cons. specialize (IH j Hj).
    destruct (ParkingSpot.isOccupied x); simpl in *; lia.
Qed.

(** A run of [k] free spots, once taken, lowers the number of free
    spots by [k], for the two lengths the program uses. *)
Lemma free_number_taken plate (spots spots' : list ParkingSpot.t) j k :
  (k = 1 \/ k = 2)%nat ->
  fits spots k j = true ->
  (forall i, spots' !! i =
     (fun s => if bool_decide (Z.of_nat i ∈ run_from j k)
               then taken plate s else s) <$> spots !! i) ->
  free_number spots' = free_number spots - Z.of_nat k.
Proof.
  intros Hk Hfit Hlook. destruct Hk as [-> | ->].
  - rewrite fits_1 in Hfit. apply free_at_true in Hfit as (s & Hs & Ho).
    assert (Heq : spots' = <[j := taken plate s]> spots).
    { apply list_eq. intros i. rewrite Hlook.
      destruct (decide (i = j)) as [-> | Hne].
      - rewrite list_lookup_insert_eq by (by apply lookup_lt_Some in Hs).
        rewrite Hs. simpl. rewrite bool_decide_eq_true_2; [done|].
        unfold run_from. simpl. by left.
      - rewrite list_lookup_insert_ne by done.
        destruct (spots !! i); simpl; [|done].
        rewrite bool_decide_eq_false_2; [done|].
        unfold run_from. simpl. rewrite elem_of_cons, elem_of_nil. lia. }
    rewrite Heq, (free_number_insert _ _ _ _ Hs), (taken_free _ _ Ho), Ho.
    simpl. lia.
  - rewrite fits_2 in Hfit. apply andb_true_iff in Hfit as [H1 H2].
    apply free_at_true in H1 as (s1 & Hs1 & Ho1).
    apply free_at_true in H2 as (s2 & Hs2 & Ho2).
    assert (Heq : spots' =
                  <[S j := taken plate s2]> (<[j := taken plate s1]> spots)).
    { apply list_eq. intros i. rewrite Hlook.
      destruct (decide (i = S j)) as [-> | Hne2].
      - rewrite list_lookup_insert_eq
          by (rewrite length_insert; by apply lookup_lt_Some in Hs2).
        rewrite Hs2. simpl. rewrite bool_decide_eq_true_2; [done|].
        unfold run_from. simpl. rewrite !elem_of_cons. lia.
      - rewrite list_lookup_insert_ne by done.
        destruct (decide (i = j)) as [-> | Hne1].
        + rewrite list_lookup_insert_eq by (by apply lookup_lt_Some in Hs1).
          rewrite Hs1. simpl. rewrite bool_decide_eq_true_2; [done|].
          unfold run_from. simpl. by left.
        + rewrite list_lookup_insert_ne by done.
          destruct (spots !! i); simpl; [|done].
          rewrite bool_decide_eq_false_2; [done|].
          unfold run_from. simpl. rewrite !elem_of_cons, elem_of_nil. lia. }
    rewrite Heq.
    rewrite (free_number_insert _ _ s2).
    + rewrite (free_number_insert _ _ _ _ Hs1).
      rewrite !taken_free by done. rewrite Ho1, Ho2. simpl. lia.
    + rewrite list_lookup_insert_ne by lia. done.
Qed.

Lemma free_number_vacated plate spots :
  free_number (vacated plate <$> spots) =
  free_number spots + held_count plate spots.
Proof.
  unfold free_number, held_count.
  induction spots as [|s rest IH]; [done|].
  rewrite fmap_cons, !filter_cons.
  destruct (held_by plate s) eqn:Eh.
  - rewrite (vacated_held_free _ _ Eh).
    apply held_by_true in Eh as [Ho _]. rewrite Ho. simpl in *. lia.
  - rewrite (vacated_not_held _ _ Eh).
    destruct (ParkingSpot.isOccupied s); simpl in *; lia.
Qed.

(** A plate that holds exactly the spots [j .. j+k-1] holds [k] spots. *)
Lemma held_count_run plate (spots : list ParkingSpot.t) j k :
  (forall i, (j <= i < j + k)%nat ->
     exists s, spots !! i = Some s /\ held_by plate s = true) ->
  (forall i s, spots !! i = Some s -> held_by plate s = true ->
     (j <= i < j + k)%nat) ->
  held_count plate spots = Z.of_nat k.
Proof.
  unfold held_count. revert j k.
  induction spots as [|s rest IH]; intros j k Hin Hout.
  - destruct k as [|k]; [done|].
    destruct (Hin j) as (s & Hs & _); [lia|]. by rewrite lookup_nil in Hs.
  - rewrite filter_cons. destruct (held_by plate s) eqn:Eh; simpl.
    + pose proof (Hout 0%nat s eq_refl Eh) as H0.
      assert (j = 0%nat) as -> by lia.
      destruct k as [|k]; [lia|].
      rewrite !Nat2Z.inj_succ. rewrite (IH 0%nat k); [lia| |].
      * intros i Hi. destruct (Hin (S i)) as (s' & Hs' & Hh); [lia|]. eauto.
      * intros i s' Hs' Hh. pose proof (Hout (S i) s' Hs' Hh). lia.
    + destruct j as [|j].
      * destruct k as [|k].
        -- apply (IH 0%nat 0%nat); [intros i Hi; lia|].
           intros i s' Hs' Hh. pose proof (Hout (S i) s' Hs' Hh). lia.
        -- destruct (Hin 0%nat) as (s' & Hs' & Hh); [lia|].
           simpl in Hs'. congruence.
      * apply (IH j k).
        -- intros i Hi. destruct (Hin (S i)) as (s' & Hs' & Hh); [lia|]. eauto.
        -- intros i s' Hs' Hh. pose proof (Hout (S i) s' Hs' Hh). lia.
Qed.

(** X9.  In every reachable world a park that returns true lowers the
    free count of the floor it recorded by the number of spots the
    vehicle requires (1, or 2 for a truck) and leaves the count of every
    other floor as it was. *)
Theorem park_lowers_one_count w v w' :
  reachable w ->
  parkVehicle v w = Done (true, w') ->
  exists n I c counts,
    vehicleLocations (lot w') !! licensePlate v = Some (Z.of_nat n, I) /\
    getAvailableSpotsPerFloor w = Done (counts, w) /\
    counts !! n = Some c /\
    getAvailableSpotsPerFloor w' =
      Done (<[n := c - getRequiredSpots v]> counts, w').
Proof.
  intros Hreach Hrun. apply reachable_inv in Hreach as Hinv.
  destruct (parkVehicle_cases _ _ _ _ Hrun)
    as [(_ & [=] & _) | [(_ & [=] & _) |
        (_ & _ & n & f & l & f' & _ & Hf & Hfind & Hne & Hpark & ->)]].
  pose proof (inv_floors _ Hinv n f Hf) as Hok.
  destruct (findAvailableSpots_spec _ _ _ _ Hok Hfind)
    as [[-> _] | (j & -> & Hfit & _)]; [done|].
  destruct (Floor_parkVehicle_spec _ _ _ _ _ Hpark) as (_ & Hnum & Hlook).
  rewrite (ok_floorNumber _ _ Hok) in Hnum.
  exists n, (run_from j (required v)), (Floor.availableSpotsCount f),
    (free_counts (lot w)).
  split; [|split; [|split]].
  - unfold parked_world. simpl. by rewrite lookup_insert_eq, Hnum.
  - apply getAvailableSpotsPerFloor_spec.
  - unfold free_counts. by rewrite list_lookup_fmap, Hf.
  - rewrite getAvailableSpotsPerFloor_spec. do 2 f_equal.
    unfold free_counts, parked_world. simpl. rewrite list_fmap_insert.
    f_equal. rewrite !availableSpotsCount_spec.
    rewrite (free_number_taken (licensePlate v) (Floor.spots f) _ j (required v));
      try done.
    + destruct (required_cases v) as [(_ & -> & ->) | (_ & -> & ->)]; done.
    + destruct (required_cases v) as [(_ & _ & ->) | (_ & _ & ->)]; auto.
Qed.

Lemma park_lowers_one_count_witness :
  reachable lot_1x4_C1 /\
  parkVehicle truck_T1 lot_1x4_C1 = Done (true, lot_1x4_C1_T1) /\
  getAvailableSpotsPerFloor lot_1x4_C1_T1 = Done ([1], lot_1x4_C1_T1).
Proof.
  assert (Hreach : reachable lot_1x4_C1).
  { apply (reach_parkVehicle (start 1 4) car_C1 true).
    - apply reach_start; unfold int_range, INT_MAX; lia.
    - vm_compute. reflexivity. }
  assert (Hrun : parkVehicle truck_T1 lot_1x4_C1 = Done (true, lot_1x4_C1_T1)).
  { vm_compute. reflexivity. }
  split; [exact Hreach|]. split; [exact Hrun|].
  destruct (park_lowers_one_count lot_1x4_C1 truck_T1 lot_1x4_C1_T1 Hreach Hrun)
    as (n & I & c & counts & Hloc & Hbefore & Hc & Hafter).
  assert (Hl : vehicleLocations (lot lot_1x4_C1_T1) !! licensePlate truck_T1
               = Some (0, [1; 2])) by (vm_compute; reflexivity).
  assert (Hb : getAvailableSpotsPerFloor lot_1x4_C1 = Done ([3], lot_1x4_C1))
    by (vm_compute; reflexivity).
  rewrite Hl in Hloc. injection Hloc as Hn _.
  assert (n = 0%nat) as -> by lia.
  rewrite Hb in Hbefore. injection Hbefore as <-.
  injection Hc as <-. exact Hafter.
Defined.

(** X10.  In every reachable world a remove that returns true raises
    the free count of the floor the entry named by the number of spots
    the recorded vehicle requires and leaves the count of every other
    floor as it was. *)
Theorem remove_raises_one_count w plate w' :
  reachable w ->
  removeVehicle plate w = Done (true, w') ->
  exists n I vehicle c counts,
    vehicleLocations (lot w) !! plate = Some (Z.of_nat n, I) /\
    vehiclesMap (lot w) !! plate = Some vehicle /\
    getAvailableSpotsPerFloor w = Done (counts, w) /\
    counts !! n = Some c /\
    getAvailableSpotsPerFloor w' =
      Done (<[n := c + getRequiredSpots vehicle]> counts, w').
Proof.
  intros Hreach Hrun. apply reachable_inv in Hreach as Hinv.
  destruct (removeVehicle_cases _ _ _ _ Hrun)
    as [(_ & [=] & _) |
        (fz & I & f & Hloc & Hat & [(_ & [=] & _) | (Hheld & _ & ->)])].
  destruct (reachable_index_shape _ Hreach _ _ _ Hloc)
    as (vehicle & j & Hrec & _ & ->).
  destruct (inv_entry_floor _ Hinv _ _ _ Hloc) as (n & -> & Hn).
  pose proof (inv_floor_count _ Hinv) as Hcount. unfold size in Hcount.
  rewrite to_size_t_nat in Hat by lia.
  rewrite at_index_nat in Hat.
  destruct (floors (lot w) !! n) as [f0|] eqn:Hf; [|done].
  injection Hat as ->.
  assert (Hk : held_count plate (Floor.spots f) = Z.of_nat (required vehicle)).
  { apply (held_count_run _ _ j).
    - intros i Hi.
      destruct (inv_listed _ Hinv _ _ _ (Z.of_nat i) Hloc)
        as (n' & i' & Hn' & Hi' & s & Hs & Ho & Hp).
      { unfold run_from. apply list_elem_of_fmap. exists i. split; [done|].
        by apply elem_of_seq. }
      apply Nat2Z.inj in Hn', Hi'. subst n' i'.
      apply spot_at_Some in Hs as (f1 & Hf1 & Hs).
      assert (f1 = f) as -> by congruence.
      exists s. split; [done|]. by apply held_by_true.
    - intros i s Hs Hh. apply held_by_true in Hh as [Ho Hp].
      destruct (inv_occupied _ Hinv plate n i) as (I' & HI' & Hin).
      { exists s. split; [|done]. apply spot_at_Some. eauto. }
      rewrite Hloc in HI'. injection HI' as <-.
      unfold run_from in Hin. apply list_elem_of_fmap in Hin as (i' & Hi' & Hin).
      apply Nat2Z.inj in Hi' as <-. by apply elem_of_seq in Hin. }
  exists n, (run_from j (required vehicle)), vehicle,
    (Floor.availableSpotsCount f), (free_counts (lot w)).
  split; [done|]. split; [done|].
  split; [apply getAvailableSpotsPerFloor_spec|]. split.
  - unfold free_counts. by rewrite list_lookup_fmap, Hf.
  - rewrite getAvailableSpotsPerFloor_spec. do 2 f_equal.
    unfold free_counts, removed_world. simpl.
    rewrite to_size_t_nat by lia. rewrite Nat2Z.id, list_fmap_insert.
    f_equal. rewrite !availableSpotsCount_spec. simpl.
    rewrite free_number_vacated, Hk.
    destruct (required_cases vehicle) as [(_ & -> & ->) | (_ & -> & ->)]; done.
Qed.

Lemma remove_raises_one_count_witness :
  reachable lot_1x4_C1_T1 /\
  removeVehicle "T1" lot_1x4_C1_T1 =
    Done (true, world_after (removeVehicle "T1" lot_1x4_C1_T1)) /\
  getAvailableSpotsPerFloor (world_after (removeVehicle "T1" lot_1x4_C1_T1)) =
    Done ([3], world_after (removeVehicle "T1" lot_1x4_C1_T1)).
Proof.
  assert (Hreach : reachable lot_1x4_C1_T1).
  { apply (reach_parkVehicle lot_1x4_C1 truck_T1 true).
    - apply (reach_parkVehicle (start 1 4) car_C1 true).
      + apply reach_start; unfold int_range, INT_MAX; lia.
      + vm_compute. reflexivity.
    - vm_compute. reflexivity. }
  assert (Hrun : removeVehicle "T1" lot_1x4_C1_T1 =
                 Done (true, world_after (removeVehicle "T1" lot_1x4_C1_T1))).
  { vm_compute. reflexivity. }
  split; [exact Hreach|]. split; [exact Hrun|].
  destruct (remove_raises_one_count lot_1x4_C1_T1 "T1" _ Hreach Hrun)
    as (n & I & vehicle & c & counts & Hloc & Hrec & Hbefore & Hc & Hafter).
  assert (Hl : vehicleLocations (lot lot_1x4_C1_T1) !! "T1" = Some (0, [1; 2]))
    by (vm_compute; reflexivity).
  assert (Hr : vehiclesMap (lot lot_1x4_C1_T1) !! "T1" = Some truck_T1)
    by (vm_compute; reflexivity).
  assert (Hb : getAvailableSpotsPerFloor lot_1x4_C1_T1 =
               Done ([1], lot_1x4_C1_T1)) by (vm_compute; reflexivity).
  rewrite Hl in Hloc. injection Hloc as Hn _.
  assert (n = 0%nat) as -> by lia.
  rewrite Hr in Hrec. injection Hrec as <-.
  rewrite Hb in Hbefore. injection Hbefore as <-.
  injection Hc as <-. exact Hafter.
Defined.

(** ** The layout never changes *)

Lemma taken_floorNumber plate s :
  ParkingSpot.floorNumber (taken plate s) = ParkingSpot.floorNumber s.
Proof.
  unfold taken, ParkingSpot.assignVehicle.
  by destruct (ParkingSpot.isOccupied s).
Qed.

Lemma vacated_floorNumber plate s :
  ParkingSpot.floorNumber (vacated plate s) = ParkingSpot.floorNumber s.
Proof.
  unfold vacated, ParkingSpot.removeVehicle.
  destruct (held_by plate s); [|done].
  by destruct (ParkingSpot.isOccupied s).
Qed.

Lemma same_layout_refl l : same_layout l l.
Proof. split; [done|]. intros n f Hf. exists f. repeat split; eauto. Qed.

Lemma same_layout_insert l l' n f f' :
  floors l !! n = Some f ->
  floors l' = <[n := f']> (floors l) ->
  Floor.floorNumber f' = Floor.floorNumber f ->
  (forall i, exists h, Floor.spots f' !! i = h <$> Floor.spots f !! i /\
     forall s, ParkingSpot.spotNumber (h s) = ParkingSpot.spotNumber s /\
               ParkingSpot.floorNumber (h s) = ParkingSpot.floorNumber s) ->
  same_layout l l'.
Proof.
  intros Hf Hfloors Hnum Hspots. split.
  - by rewrite Hfloors, length_insert.
  - intros m fm Hm. rewrite Hfloors.
    destruct (decide (m = n)) as [-> | Hne].
    + rewrite list_lookup_insert_eq by (by apply lookup_lt_Some in Hf).
      assert (fm = f) as -> by congruence.
      exists f'. split; [done|]. split; [done|]. split.
      * destruct (Nat.lt_trichotomy (length (Floor.spots f'))
                    (length (Floor.spots f))) as [Hlt | [Heq | Hgt]]; [|done|].
        -- destruct (Hspots (length (Floor.spots f'))) as (h & Hh & _).
           destruct (lookup_lt_is_Some_2 _ _ Hlt) as [x Hx].
           rewrite Hx in Hh. simpl in Hh. apply lookup_lt_Some in Hh. lia.
        -- destruct (Hspots (length (Floor.spots f))) as (h & Hh & _).
           destruct (lookup_lt_is_Some_2 _ _ Hgt) as [x Hx].
           rewrite Hx in Hh.
           rewrite (lookup_ge_None_2 (Floor.spots f)) in Hh by lia. done.
      * intros i s Hs. destruct (Hspots i) as (h & Hh & Hkeep).
        rewrite Hs in Hh. exists (h s). split; [done|]. apply Hkeep.
    + rewrite list_lookup_insert_ne by done.
      exists fm. repeat split; eauto.
Qed.

Lemma same_layout_parkVehicle v w b w' :
  parkVehicle v w = Done (b, w') -> same_layout (lot w) (lot w').
Proof.
  intros Hrun.
  destruct (parkVehicle_cases _ _ _ _ Hrun)
    as [(_ & _ & ->) | [(_ & _ & -> & _) |
        (_ & _ & n & f & l & f' & _ & Hf & _ & _ & Hpark & ->)]];
    try apply same_layout_refl.
  destruct (Floor_parkVehicle_spec _ _ _ _ _ Hpark) as (_ & Hnum & Hlook).
  apply (same_layout_insert _ _ n f f'); try done.
  intros i. eexists. split; [apply Hlook|].
  intros s. simpl. case_bool_decide;
    by rewrite ?taken_spotNumber, ?taken_floorNumber.
Qed.

Lemma same_layout_removeVehicle plate w b w' :
  removeVehicle plate w = Done (b, w') -> same_layout (lot w) (lot w').
Proof.
  intros Hrun.
  destruct (removeVehicle_cases _ _ _ _ Hrun)
    as [(_ & _ & ->) | (fz & I & f & _ & Hat & [(_ & _ & ->) | (_ & _ & ->)])];
    try apply same_layout_refl.
  apply at_index_Done in Hat as [_ Hf].
  apply (same_layout_insert _ _ (Z.to_nat (to_size_t fz)) f
           (Floor.mk (Floor.floorNumber f) (vacated plate <$> Floor.spots f)));
    try done.
  intros i. exists (vacated plate). split.
  - simpl. apply list_lookup_fmap.
  - intros s. by rewrite vacated_spotNumber, vacated_floorNumber.
Qed.

(** X11.  Whatever the state of the lot, a completed [parkVehicle] or
    [removeVehicle] leaves the layout as it was: the same number of
    floors, each with its floor number and its number of spots, each
    spot with its spot number and floor number.  Only occupancy and
    plates change. *)
Theorem calls_keep_layout w w' :
  (exists v b, parkVehicle v w = Done (b, w')) \/
  (exists plate b, removeVehicle plate w = Done (b, w')) ->
  same_layout (lot w) (lot w').
Proof.
  intros [(v & b & Hrun) | (plate & b & Hrun)].
  - by eapply same_layout_parkVehicle.
  - by eapply same_layout_removeVehicle.
Qed.

Lemma calls_keep_layout_witness :
  ((exists v b, parkVehicle v lot_1x4_C1 = Done (b, lot_1x4_C1_T1)) \/
   (exists plate b, removeVehicle plate lot_1x4_C1 = Done (b, lot_1x4_C1_T1))) /\
  same_layout (lot lot_1x4_C1) (lot lot_1x4_C1_T1).
Proof.
  assert (Hrun : (exists v b, parkVehicle v lot_1x4_C1 = Done (b, lot_1x4_C1_T1)) \/
                 (exists plate b,
                    removeVehicle plate lot_1x4_C1 = Done (b, lot_1x4_C1_T1))).
  { left. exists truck_T1, true. vm_compute. reflexivity. }
  split; [exact Hrun|].
  exact (calls_keep_layout lot_1x4_C1 lot_1x4_C1_T1 Hrun).
Defined.

(** ** No out-of-range access on a lot with spots on every floor *)

Lemma same_layout_no_empty_floor l l' :
  same_layout l l' -> no_empty_floor l -> no_empty_floor l'.
Proof.
  intros [Hlen Hsame] Hne n f' Hf'.
  destruct (lookup_lt_is_Some_2 (floors l) n) as [f Hf].
  { apply lookup_lt_Some in Hf'. lia. }
  destruct (Hsame n f Hf) as (f1 & Hf1 & _ & Hspots & _).
  assert (f1 = f') as -> by congruence.
  specialize (Hne n f Hf). intros Hnil. rewrite Hnil in Hspots.
  destruct (Floor.spots f); [done | simpl in Hspots; lia].
Qed.

Lemma no_empty_floor_new numFloors spotsPerFloor :
  1 <= spotsPerFloor -> no_empty_floor (new numFloors spotsPerFloor).
Proof.
  intros Hs n f. unfold new. simpl. rewrite list_lookup_fmap.
  destruct (seqZ 0 numFloors !! n) as [z|]; [|done]. simpl.
  intros [= <-]. unfold Floor.new. simpl. intros Hnil.
  apply (f_equal length) in Hnil. rewrite length_fmap, length_seqZ in Hnil.
  simpl in Hnil. lia.
Qed.

(** X12.  A lot constructed with at least one spot per floor has no
    floor without spots, and in a reachable world without such a floor
    neither [parkVehicle] nor [removeVehicle] ever reads a vector out of
    range: both return, for every vehicle and every plate, and the world
    they leave again has no floor without spots. *)
Theorem calls_return_without_fault w v plate :
  reachable w ->
  no_empty_floor (lot w) ->
  (exists b w', parkVehicle v w = Done (b, w') /\ no_empty_floor (lot w')) /\
  (exists b w', removeVehicle plate w = Done (b, w') /\ no_empty_floor (lot w')) /\
  (forall numFloors spotsPerFloor,
     1 <= spotsPerFloor -> no_empty_floor (new numFloors spotsPerFloor)).
Proof.
  intros Hreach Hne. split; [|split].
  - destruct (parkVehicle_total w v Hreach) as (b & w' & Hrun).
    { intros m f Hf. left. by apply (Hne m). }
    exists b, w'. split; [done|].
    eapply same_layout_no_empty_floor; [|done].
    by eapply same_layout_parkVehicle.
  - destruct (removeVehicle_total w plate Hreach) as (b & w' & Hrun).
    exists b, w'. split; [done|].
    eapply same_layout_no_empty_floor; [|done].
    by eapply same_layout_removeVehicle.
  - apply no_empty_floor_new.
Qed.

Lemma calls_return_without_fault_witness :
  reachable (start 1 4) /\
  no_empty_floor (lot (start 1 4)) /\
  exists b w', parkVehicle truck_T1 (start 1 4) = Done (b, w') /\
               no_empty_floor (lot w').
Proof.
  assert (Hreach : reachable (start 1 4)).
  { apply reach_start; unfold int_range, INT_MAX; lia. }
  assert (Hne : no_empty_floor (lot (start 1 4))).
  { intros n f Hf. destruct n as [|n]; [|done].
    injection Hf as <-. done. }
  split; [exact Hreach|]. split; [exact Hne|].
  exact (proj1 (calls_return_without_fault (start 1 4) truck_T1 "T1" Hreach Hne)).
Defined.

(** ** Room means success *)

(** In a reachable world, for a plate not yet parked and with no truck
    meeting a floor without spots, [parkVehicle] returns true when some
    floor fits the vehicle and false, with the report of no suitable
    spot, when none does. *)
Lemma parkVehicle_by_room w v :
  reachable w ->
  vehicleLocations (lot w) !! licensePlate v = None ->
  (forall m f, floors (lot w) !! m = Some f ->
               Floor.spots f <> [] \/ type v <> Truck) ->
  ((exists n f j, floors (lot w) !! n = Some f /\
                  fits (Floor.spots f) (required v) j = true) /\
   exists w', parkVehicle v w = Done (true, w')) \/
  ((forall n f, floors (lot w) !! n = Some f ->
                no_fit (Floor.spots f) (required v)) /\
   parkVehicle v w = Done (false, printed w (NoSuitableSpot (licensePlate v)))).
Proof.
  intros Hreach Hnew Hsafe. apply reachable_inv in Hreach as Hinv.
  destruct (parkVehicle_total w v Hreach Hsafe) as (b & w' & Hrun).
  destruct (parkVehicle_cases _ _ _ _ Hrun)
    as [([? H] & _) | [(_ & -> & -> & Hall) |
        (_ & -> & n & f & l & f' & _ & Hf & Hfind & Hne & _ & _)]].
  - congruence.
  - right. split; [|done]. intros n f Hf.
    eapply passed_over_no_fit; [by apply (inv_floors _ Hinv) | by eapply Hall].
  - left. split; [|eauto].
    destruct (findAvailableSpots_spec _ _ _ _ (inv_floors _ Hinv n f Hf) Hfind)
      as [[-> _] | (j & _ & Hfit & _)]; [done|].
    eauto.
Qed.

(** X13.  In every reachable world, for a plate that is not parked and
    as long as no truck meets a floor without spots, [parkVehicle]
    returns true exactly when some floor has the required number of
    consecutive free spots; when no floor has, it returns false, reports
    that there is no suitable spot, and changes nothing else. *)
Theorem park_succeeds_iff_room w v :
  reachable w ->
  vehicleLocations (lot w) !! licensePlate v = None ->
  (forall m f, floors (lot w) !! m = Some f ->
               Floor.spots f <> [] \/ type v <> Truck) ->
  ((exists n f j, floors (lot w) !! n = Some f /\
                  fits (Floor.spots f) (required v) j = true) <->
   exists w', parkVehicle v w = Done (true, w')) /\
  ((forall n f, floors (lot w) !! n = Some f ->
                no_fit (Floor.spots f) (required v)) ->
   parkVehicle v w = Done (false, printed w (NoSuitableSpot (licensePlate v)))).
Proof.
  intros Hreach Hnew Hsafe.
  destruct (parkVehicle_by_room w v Hreach Hnew Hsafe)
    as [[Hfit Hrun] | [Hnone Hrun]].
  - split; [tauto|]. intros Hnone.
    destruct Hfit as (n & f & j & Hf & Hfit).
    rewrite (Hnone n f Hf j) in Hfit. done.
  - split; [|done]. split.
    + intros (n & f & j & Hf & Hfit). rewrite (Hnone n f Hf j) in Hfit. done.
    + intros (w' & Hrun'). congruence.
Qed.

Lemma park_succeeds_iff_room_witness :
  reachable lot_1x4_C1 /\
  vehicleLocations (lot lot_1x4_C1) !! licensePlate truck_T1 = None /\
  exists w', parkVehicle truck_T1 lot_1x4_C1 = Done (true, w').
Proof.
  assert (Hreach : reachable lot_1x4_C1).
  { apply (reach_parkVehicle (start 1 4) car_C1 true).
    - apply reach_start; unfold int_range, INT_MAX; lia.
    - vm_compute. reflexivity. }
  assert (Hnew : vehicleLocations (lot lot_1x4_C1) !! licensePlate truck_T1 = None)
    by (vm_compute; reflexivity).
  assert (Hsafe : forall m f, floors (lot lot_1x4_C1) !! m = Some f ->
                    Floor.spots f <> [] \/ type truck_T1 <> Truck).
  { intros m f Hf. left. destruct m as [|m]; [|done].
    vm_compute in Hf. injection Hf as <-. done. }
  split; [exact Hreach|]. split; [exact Hnew|].
  apply (proj1 (proj1 (park_succeeds_iff_room lot_1x4_C1 truck_T1
                         Hreach Hnew Hsafe))).
  exists 0%nat, (Floor.mk 0
    [ParkingSpot.mk 0 0 true "C1"; ParkingSpot.mk 0 1 false EmptyString;
     ParkingSpot.mk 0 2 false EmptyString; ParkingSpot.mk 0 3 false EmptyString]),
    1%nat.
  split; vm_compute; reflexivity.
Defined.

(** X14.  In every reachable world a bike or a car whose plate is not
    parked is parked exactly when [isFull] says the lot is not full. *)
Theorem single_spot_parks_iff_not_full w v :
  reachable w ->
  vehicleLocations (lot w) !! licensePlate v = None ->
  type v <> Truck ->
  (isFull w = Done (false, w) <-> exists w', parkVehicle v w = Done (true, w')).
Proof.
  intros Hreach Hnew Ht.
  assert (Hk : required v = 1%nat).
  { by destruct (required_cases v) as [(? & _) | (_ & _ & ->)]. }
  assert (Hsafe : forall m f, floors (lot w) !! m = Some f ->
                    Floor.spots f <> [] \/ type v <> Truck) by (by right).
  rewrite isFull_spec.
  pose proof (isFull_true_iff w) as Hfull.
  destruct (parkVehicle_by_room w v Hreach Hnew Hsafe)
    as [[(n & f & j & Hf & Hfit) Hrun] | [Hnone Hrun]].
  - split; [done|]. intros _.
    destruct (forallb _ _) eqn:E; [|done].
    rewrite Hk, fits_1 in Hfit.
    rewrite (proj1 Hfull eq_refl n f j Hf) in Hfit. done.
  - split.
    + intros [= Hb]. exfalso.
      assert (Htrue : forallb
                (fun f => negb (Floor.availableSpotsCount f >? 0))
                (floors (lot w)) = true).
      { apply Hfull. intros n f j Hf.
        rewrite <- fits_1, <- Hk. by apply (Hnone n f). }
      congruence.
    + intros (w' & Hrun'). congruence.
Qed.

Lemma single_spot_parks_iff_not_full_witness :
  reachable lot_1x4_C1 /\
  vehicleLocations (lot lot_1x4_C1) !! licensePlate bike_X = None /\
  type bike_X <> Truck /\
  exists w', parkVehicle bike_X lot_1x4_C1 = Done (true, w').
Proof.
  assert (Hreach : reachable lot_1x4_C1).
  { apply (reach_parkVehicle (start 1 4) car_C1 true).
    - apply reach_start; unfold int_range, INT_MAX; lia.
    - vm_compute. reflexivity. }
  assert (Hnew : vehicleLocations (lot lot_1x4_C1) !! licensePlate bike_X = None)
    by (vm_compute; reflexivity).
  assert (Ht : type bike_X <> Truck) by (simpl; discriminate).
  split; [exact Hreach|]. split; [exact Hnew|]. split; [exact Ht|].
  apply (proj1 (single_spot_parks_iff_not_full lot_1x4_C1 bike_X Hreach Hnew Ht)).
  vm_compute. reflexivity.
Defined.

(** ** The search and the commit of one floor *)

(** X15.  On a floor numbered as the constructor numbers it, with at
    least one spot or for a vehicle that is not a truck,
    [findAvailableSpots] returns without fault.  What it returns is
    empty exactly when the floor has no run of free spots of the
    required length; otherwise it is the run that starts at the smallest
    fitting index, every index of it a free spot of the floor. *)
Theorem findAvailableSpots_first_fit_or_nothing n f v :
  floor_ok n f ->
  (Floor.spots f <> [] \/ type v <> Truck) ->
  exists l,
    Floor.findAvailableSpots v f = Done l /\
    (l = [] <-> no_fit (Floor.spots f) (required v)) /\
    (l <> [] ->
     exists j, l = run_from j (required v) /\
               first_fit (Floor.spots f) (required v) j /\
               forall idx, idx ∈ l ->
                 exists i, idx = Z.of_nat i /\
                           free_at (Floor.spots f) i = true).
Proof.
  intros Hok Hor.
  destruct (findAvailableSpots_total f v (ok_size _ _ Hok) Hor) as [l Hl].
  exists l. split; [done|].
  destruct (findAvailableSpots_spec _ _ _ _ Hok Hl)
    as [[-> Hnone] | (j & -> & Hfirst)].
  - split; [done|]. done.
  - split.
    + split.
      * intros Hnil. by apply run_from_nonempty in Hnil; [|apply required_pos].
      * intros Hnone. destruct Hfirst as [Hfit _].
        rewrite (Hnone j) in Hfit. done.
    + intros _. exists j. split; [done|]. split; [done|].
      apply fits_run_from, Hfirst.
Qed.

Lemma findAvailableSpots_first_fit_or_nothing_witness :
  floor_ok 0 (Floor.new 0 3) /\
  (Floor.spots (Floor.new 0 3) <> [] \/ type truck_T1 <> Truck) /\
  exists l, Floor.findAvailableSpots truck_T1 (Floor.new 0 3) = Done l /\
            (l = [] <-> no_fit (Floor.spots (Floor.new 0 3)) (required truck_T1)).
Proof.
  assert (Hok : floor_ok 0 (Floor.new 0 3)).
  { split.
    - reflexivity.
    - intros [|[|[|i]]] s Hs; try (injection Hs as <-; reflexivity).
      discriminate Hs.
    - vm_compute. discriminate. }
  assert (Hor : Floor.spots (Floor.new 0 3) <> [] \/ type truck_T1 <> Truck).
  { left. discriminate. }
  split; [exact Hok|]. split; [exact Hor|].
  destruct (findAvailableSpots_first_fit_or_nothing 0 (Floor.new 0 3) truck_T1
              Hok Hor) as (l & Hl & Hiff & _).
  exists l. split; [exact Hl | exact Hiff].
Defined.

Lemma Floor_parkVehicle_total v l f :
  exists b f', Floor.parkVehicle v l f = Done (b, f').
Proof.
  unfold Floor.parkVehicle.
  destruct (verify_total (Floor.spots f) l) as [[|] Hv]; rewrite Hv; simpl.
  - destruct (assign_all_spec (licensePlate v) l (Floor.spots f))
      as (spots' & -> & _); [|by eexists _, _].
    intros idx Hin.
    destruct (verify_Done_true _ _ Hv idx Hin) as (j & -> & Hj & Hsz).
    exists j. repeat split; try done.
    apply free_at_true in Hj as (s & Hs & _). by apply lookup_lt_Some in Hs.
  - by eexists _, _.
Qed.

(** X16.  The floor's [parkVehicle] returns without fault for any list
    of proposed indices, negative and oversized ones included.  On a
    floor whose size fits [int] it returns true exactly when every
    proposed index is a free spot of the floor; it then leaves each
    proposed spot occupied by the vehicle's plate and every other spot,
    and the floor number, as they were. *)
Theorem Floor_parkVehicle_all_or_nothing v l f :
  size (Floor.spots f) <= INT_MAX ->
  exists b f',
    Floor.parkVehicle v l f = Done (b, f') /\
    (b = true <->
     forall idx, idx ∈ l ->
       exists j, idx = Z.of_nat j /\ free_at (Floor.spots f) j = true) /\
    (b = false -> f' = f) /\
    (b = true ->
     Floor.floorNumber f' = Floor.floorNumber f /\
     forall i s, Floor.spots f !! i = Some s ->
       Floor.spots f' !! i =
       Some (if bool_decide (Z.of_nat i ∈ l)
             then ParkingSpot.mk (ParkingSpot.floorNumber s)
                    (ParkingSpot.spotNumber s) true (licensePlate v)
             else s)).
Proof.
  intros Hsize.
  destruct (Floor_parkVehicle_total v l f) as (b & f' & Hrun).
  exists b, f'. split; [done|].
  pose proof (Floor_parkVehicle_spec _ _ _ _ _ Hrun) as Hspec.
  destruct b.
  - destruct Hspec as (Hfree & Hnum & Hlook).
    split; [done|]. split; [done|]. intros _. split; [done|].
    intros i s Hs. rewrite Hlook, Hs. simpl. f_equal.
    case_bool_decide as Hin; [|done].
    destruct (Hfree _ Hin) as (j & Hj & Hfr). apply Nat2Z.inj in Hj as <-.
    apply free_at_true in Hfr as (s0 & Hs0 & Ho).
    assert (s0 = s) as -> by congruence. by apply taken_free.
  - split; [|done]. split; [done|]. intros Hfree. exfalso.
    unfold Floor.parkVehicle in Hrun.
    rewrite (verify_free _ _ Hsize Hfree) in Hrun. simpl in Hrun.
    by destruct (Floor.assign_all _ _ _).
Qed.

Lemma Floor_parkVehicle_all_or_nothing_witness :
  size (Floor.spots floor_with_truck) <= INT_MAX /\
  exists b f',
    Floor.parkVehicle car_C1 [0] floor_with_truck = Done (b, f') /\
    (b = false -> f' = floor_with_truck).
Proof.
  assert (Hsize : size (Floor.spots floor_with_truck) <= INT_MAX)
    by (vm_compute; discriminate).
  split; [exact Hsize|].
  destruct (Floor_parkVehicle_all_or_nothing car_C1 [0] floor_with_truck Hsize)
    as (b & f' & Hrun & _ & Hfalse & _).
  exists b, f'. split; [exact Hrun | exact Hfalse].
Defined.

(** ** One count per floor *)

(** X17.  Whatever the state of the lot, [getAvailableSpotsPerFloor]
    returns one count per floor, in floor order: the count at position
    [n] is the number of free spots of floor [n], between 0 and the size
    of that floor. *)
Theorem getAvailableSpotsPerFloor_per_floor w :
  exists counts,
    getAvailableSpotsPerFloor w = Done (counts, w) /\
    length counts = length (floors (lot w)) /\
    forall n f, floors (lot w) !! n = Some f ->
      counts !! n = Some (free_number (Floor.spots f)) /\
      0 <= free_number (Floor.spots f) <= size (Floor.spots f).
Proof.
  exists (free_counts (lot w)).
  split; [apply getAvailableSpotsPerFloor_spec|].
  unfold free_counts. split; [apply length_fmap|].
  intros n f Hf. split.
  - by rewrite list_lookup_fmap, Hf, <- availableSpotsCount_spec.
  - pose proof (free_occupied_number (Floor.spots f)) as Hsum.
    unfold free_number, occupied_number in *. lia.
Qed.

Lemma getAvailableSpotsPerFloor_per_floor_witness :
  exists counts,
    getAvailableSpotsPerFloor lot_1x4_C1 = Done (counts, lot_1x4_C1) /\
    length counts = length (floors (lot lot_1x4_C1)) /\
    forall n f, floors (lot lot_1x4_C1) !! n = Some f ->
      counts !! n = Some (free_number (Floor.spots f)) /\
      0 <= free_number (Floor.spots f) <= size (Floor.spots f).
Proof. exact (getAvailableSpotsPerFloor_per_floor lot_1x4_C1). Defined.

(** ** The constructed layout stays *)

Lemma same_layout_trans l1 l2 l3 :
  same_layout l1 l2 -> same_layout l2 l3 -> same_layout l1 l3.
Proof.
  intros [Hlen12 H12] [Hlen23 H23]. split; [congruence|].
  intros n f1 Hf1.
  destruct (H12 n f1 Hf1) as (f2 & Hf2 & Hnum12 & Hsz12 & Hs12).
  destruct (H23 n f2 Hf2) as (f3 & Hf3 & Hnum23 & Hsz23 & Hs23).
  exists f3. split; [done|]. split; [congruence|]. split; [congruence|].
  intros i s1 Hs1.
  destruct (Hs12 i s1 Hs1) as (s2 & Hs2 & Hn12 & Hfn12).
  destruct (Hs23 i s2 Hs2) as (s3 & Hs3 & Hn23 & Hfn23).
  exists s3. split; [done|]. split; congruence.
Qed.

Lemma reachable_layout w :
  reachable w ->
  exists numFloors spotsPerFloor,
    same_layout (new numFloors spotsPerFloor) (lot w).
Proof.
  induction 1 as [nf ns Hnf Hns | w v b w' _ IH Hrun | w p b w' _ IH Hrun
                  | w r w' _ IH Hrun | w b w' _ IH Hrun | w p u w' _ IH Hrun].
  - exists nf, ns. apply same_layout_refl.
  - destruct IH as (nf & ns & IH). exists nf, ns.
    eapply same_layout_trans; [done|]. by eapply same_layout_parkVehicle.
  - destruct IH as (nf & ns & IH). exists nf, ns.
    eapply same_layout_trans; [done|]. by eapply same_layout_removeVehicle.
  - by rewrite (getAvailableSpotsPerFloor_frame _ _ _ Hrun).
  - by rewrite (isFull_frame _ _ _ Hrun).
  - by rewrite (findVehicle_frame _ _ _ _ Hrun).
Qed.

(** X18.  Every reachable world still has the layout some constructor
    call gave it: for the two numbers [numFloors] and [spotsPerFloor] of
    that call the lot has [numFloors] floors (none if negative), every
    floor has [spotsPerFloor] spots (none if negative), and on every
    floor the free and the occupied spots add up to that number. *)
Theorem constructed_layout_stays w :
  reachable w ->
  exists numFloors spotsPerFloor,
    same_layout (new numFloors spotsPerFloor) (lot w) /\
    size (floors (lot w)) = Z.max 0 numFloors /\
    forall n f, floors (lot w) !! n = Some f ->
      Floor.floorNumber f = Z.of_nat n /\
      size (Floor.spots f) = Z.max 0 spotsPerFloor /\
      Floor.availableSpotsCount f + occupied_number (Floor.spots f)
        = Z.max 0 spotsPerFloor.
Proof.
  intros Hreach. apply reachable_inv in Hreach as Hinv.
  destruct (reachable_layout _ Hreach) as (nf & ns & Hsame).
  exists nf, ns. split; [done|].
  destruct Hsame as [Hlen Hsame]. split.
  - unfold size. rewrite Hlen. unfold new. simpl.
    rewrite length_fmap, length_seqZ. lia.
  - intros n f Hf.
    destruct (lookup_lt_is_Some_2 (floors (new nf ns)) n) as [f0 Hf0].
    { apply lookup_lt_Some in Hf. lia. }
    destruct (Hsame n f0 Hf0) as (f1 & Hf1 & _ & Hsz & _).
    assert (f1 = f) as -> by congruence.
    assert (Hsize : size (Floor.spots f) = Z.max 0 ns).
    { unfold size. rewrite Hsz.
      unfold new in Hf0. simpl in Hf0. rewrite list_lookup_fmap in Hf0.
      destruct (seqZ 0 nf !! n) as [z|]; [|done]. simpl in Hf0.
      injection Hf0 as <-. unfold Floor.new. simpl.
      rewrite length_fmap, length_seqZ. lia. }
    split; [apply (ok_floorNumber _ _ (inv_floors _ Hinv n f Hf))|].
    split; [done|].
    rewrite availableSpotsCount_spec, free_occupied_number. done.
Qed.

Lemma constructed_layout_stays_witness :
  reachable lot_1x4_C1_T1 /\
  exists numFloors spotsPerFloor,
    same_layout (new numFloors spotsPerFloor) (lot lot_1x4_C1_T1) /\
    size (floors (lot lot_1x4_C1_T1)) = Z.max 0 numFloors.
Proof.
  assert (Hreach : reachable lot_1x4_C1_T1).
  { apply (reach_parkVehicle lot_1x4_C1 truck_T1 true).
    - apply (reach_parkVehicle (start 1 4) car_C1 true).
      + apply reach_start; unfold int_range, INT_MAX; lia.
      + vm_compute. reflexivity.
    - vm_compute. reflexivity. }
  split; [exact Hreach|].
  destruct (constructed_layout_stays lot_1x4_C1_T1 Hreach)
    as (nf & ns & Hsame & Hsize & _).
  exists nf, ns. split; [exact Hsame | exact Hsize].
Defined.
